(** * CUTE vertical-stability scan: the notebook's array code and the engine it drives

    The repository is one notebook, [CUTE/CUTE_VDE_ex.ipynb].  Its cell 25
    post-processes the output of the equilibrium engine with a handful of
    NumPy expressions (sign normalisation of the leading eigenvector, the
    perturbed initial condition); cell 11 builds the coil regularisation
    terms.  These are embedded here from the notebook source.

    NumPy arrays of dtype float64 are lists of IEEE-754 binary64 numbers
    ([PrimFloat.float]); the arithmetic of the embedded expressions is the
    hardware arithmetic, specified by [FloatAxioms].

    The engine itself (the [TokaMaker] object) is imported by the notebook
    and is not part of the repository.  The members of it the embedded
    cells call ([coil_reg_term], [step_td], [o_point], [get_psi]) are
    parameters of the loops that call them; what is modelled from the
    specification is marked as such. *)

From Stdlib Require Import Ascii String DecimalString QArith Lqa.
From Stdlib Require Import List Bool Arith ZArith Lia Floats.
Import ListNotations.

Close Scope Q_scope.

Set Warnings "-inexact-float".

(** ** The NumPy operations the notebook applies to float64 arrays

    One-dimensional float64 arrays are lists of binary64 numbers.  Each
    definition gives the operation its NumPy meaning, including the error
    it raises ([None]). *)

Module NumPy.

Local Open Scope float_scope.

Definition ndarray : Type := list float.

(** [a > c] for an array and a scalar: the boolean mask. *)
Definition gt_scalar (a : ndarray) (c : float) : list bool :=
  map (fun x => c <? x) a.

(** [a[mask]], selection by a boolean mask.  NumPy raises [IndexError]
    when the mask and the array differ in length. *)
Fixpoint select (a : ndarray) (mask : list bool) : option ndarray :=
  match a, mask with
  | [], [] => Some []
  | x :: a', b :: mask' =>
      match select a' mask' with
      | Some r => Some (if b then x :: r else r)
      | None => None
      end
  | _, _ => None
  end.

(** [abs(a)], elementwise. *)
Definition absolute (a : ndarray) : ndarray := map abs a.

(** The scan of [argmax] over the entries after the first: [mp] is the
    running maximum and [max_ind] its index; an entry replaces the maximum
    when [not (x <= mp)], and a NaN ends the scan at once. *)
Fixpoint argmax_loop (l : ndarray) (i : nat) (mp : float) (max_ind : nat) : nat :=
  match l with
  | [] => max_ind
  | x :: l' =>
      if negb (x <=? mp) then
        if is_nan x then i else argmax_loop l' (S i) x i
      else argmax_loop l' (S i) mp max_ind
  end.

(** [a.argmax()]: the index of the first occurrence of the maximum, a NaN
    counting as maximal; [ValueError] on an empty array. *)
Definition argmax (a : ndarray) : option nat :=
  match a with
  | [] => None
  | x :: l => Some (if is_nan x then 0%nat else argmax_loop l 1 x 0)
  end.

(** [a * c], [c * a], [a / c] with a scalar [c]. *)
Definition mul_scalar (a : ndarray) (c : float) : ndarray := map (fun x => x * c) a.
Definition scalar_mul (c : float) (a : ndarray) : ndarray := map (fun x => c * x) a.
Definition div_scalar (a : ndarray) (c : float) : ndarray := map (fun x => x / c) a.

(** Elementwise pairing of two arrays of one length. *)
Fixpoint zip_with (f : float -> float -> float) (a b : ndarray) : ndarray :=
  match a, b with
  | x :: a', y :: b' => f x y :: zip_with f a' b'
  | _, _ => []
  end.

(** A binary operation on two one-dimensional arrays under broadcasting:
    an array of length one is stretched, equal lengths pair up, and any
    other pair of shapes raises [ValueError]. *)
Definition broadcast (f : float -> float -> float) (a b : ndarray) : option ndarray :=
  match a, b with
  | [x], _ => Some (map (f x) b)
  | _, [y] => Some (map (fun x => f x y) a)
  | _, _ => if (length a =? length b)%nat then Some (zip_with f a b) else None
  end.

Definition subtract : ndarray -> ndarray -> option ndarray := broadcast sub.

(** The position in the full array of the [k]-th entry a mask selects. *)
Fixpoint mask_index (mask : list bool) (k : nat) : option nat :=
  match mask with
  | [] => None
  | true :: mask' =>
      match k with
      | O => Some O
      | S k' => option_map S (mask_index mask' k')
      end
  | false :: mask' => option_map S (mask_index mask' k)
  end.

End NumPy.

(** ** Cell 25 of the notebook: the linear-stability post-processing *)

Module Driver.

Import NumPy.
Local Open Scope float_scope.

(** [eig_vecs[0,mygs.r[:,1]>0.0]]: the leading eigenvector at the mesh
    nodes with [Z > 0]; [vec0] is [eig_vecs[0,:]], [rz] is [mygs.r[:,1]]. *)
Definition upper_values (vec0 rz : ndarray) : option ndarray :=
  select vec0 (gt_scalar rz 0).

(** [eig_sign = eig_vecs[0,mygs.r[:,1]>0.0][abs(eig_vecs[0,mygs.r[:,1]>0.0]).argmax()]] *)
Definition eig_sign (vec0 rz : ndarray) : option float :=
  match upper_values vec0 rz with
  | None => None
  | Some w =>
      match argmax (absolute w) with
      | None => None
      | Some k => nth_error w k
      end
  end.

(** The mesh node [eig_sign] is read at: the node of maximum magnitude
    among the nodes with [Z > 0]. *)
Definition eig_node (vec0 rz : ndarray) : option nat :=
  match upper_values vec0 rz with
  | None => None
  | Some w =>
      match argmax (absolute w) with
      | None => None
      | Some k => mask_index (gt_scalar rz 0) k
      end
  end.

(** [modes.append(eig_vecs[0,:]*eig_sign)]: the stored mode. *)
Definition mode (vec0 rz : ndarray) : option ndarray :=
  match eig_sign vec0 rz with
  | None => None
  | Some s => Some (mul_scalar vec0 s)
  end.

(** [0.01*eig_vecs[0,:]*(mygs.psi_bounds[1]-mygs.psi_bounds[0])/eig_sign],
    evaluated left to right as Python does. *)
Definition perturbation (vec0 : ndarray) (psi_bounds : float * float) (s : float) : ndarray :=
  div_scalar (mul_scalar (scalar_mul 0.01 vec0) (snd psi_bounds - fst psi_bounds)) s.

(** [psi_ic = psi0-0.01*eig_vecs[0,:]*(mygs.psi_bounds[1]-mygs.psi_bounds[0])/eig_sign] *)
Definition psi_ic (psi0 vec0 rz : ndarray) (psi_bounds : float * float) : option ndarray :=
  match eig_sign vec0 rz with
  | None => None
  | Some s => subtract psi0 (perturbation vec0 psi_bounds s)
  end.

End Driver.

(** ** Python dictionaries with string keys

    A [dict] keeps its keys in insertion order; assigning to a key that is
    present replaces the value in place. *)

Module PyDict.

Section Dict.
Context {V : Type}.

Definition dict : Type := list (string * V).

(** [d.get(k)] *)
Fixpoint get (d : dict) (k : string) : option V :=
  match d with
  | [] => None
  | (k', v) :: d' => if String.eqb k' k then Some v else get d' k
  end.

(** [k in d] *)
Definition mem (d : dict) (k : string) : bool :=
  match get d k with Some _ => true | None => false end.

(** [d[k] = v] *)
Fixpoint set (d : dict) (k : string) (v : V) : dict :=
  match d with
  | [] => [(k, v)]
  | (k', v') :: d' =>
      if String.eqb k' k then (k', v) :: d' else (k', v') :: set d' k v
  end.

(** [d.update(other)] *)
Definition update (d other : dict) : dict :=
  fold_left (fun acc kv => set acc (fst kv) (snd kv)) other d.

(** A display [{k1: v1, k2: v2, ...}] or a comprehension, from its items
    in order. *)
Definition of_items (items : list (string * V)) : dict := update [] items.

End Dict.

Arguments dict : clear implicits.

End PyDict.

(** ** Cell 11 of the notebook: the coil regularisation terms *)

Module Regularization.

Import PyDict.
Local Open Scope string_scope.
Local Open Scope float_scope.

(** ['{0:02d}'.format(n)] for a natural number. *)
Definition fmt02 (n : nat) : string :=
  let s := NilZero.string_of_uint (Nat.to_uint n) in
  if (String.length s <? 2)%nat then "0" ++ s else s.

(** [range(a, b)] *)
Definition range (a b : nat) : list nat := seq a (b - a).

(** [coil_mirrors = {'CS{0:02d}'.format(2*i+1): 'CS{0:02d}'.format(2*i+2) for i in range(7)}]
    [coil_mirrors.update({'PF{0:02d}'.format(i): 'PF{0:02d}'.format(15-i) for i in range(1,8)})] *)
Definition coil_mirrors : dict string :=
  update
    (of_items (map (fun i => ("CS" ++ fmt02 (2 * i + 1), "CS" ++ fmt02 (2 * i + 2)))
                   (range 0 7)))
    (of_items (map (fun i => ("PF" ++ fmt02 i, "PF" ++ fmt02 (15 - i)))
                   (range 1 8))).

(** [disable_list = ['PF01']] *)
Definition disable_list : list string := ["PF01"].

(** How cell 11 stands after a statement: the loop goes on with the list
    it has built, or a call of the constructor has raised and
    [regularization_terms] stays as it was at that call. *)
Inductive run (term : Type) : Type :=
| Continues (regularization_terms : list term)
| Raises (regularization_terms : list term).

Arguments Continues {term}.
Arguments Raises {term}.

(** [regularization_terms] as a run leaves it. *)
Definition terms_of {term : Type} (r : run term) : list term :=
  match r with
  | Continues regularization_terms | Raises regularization_terms => regularization_terms
  end.

(** The next statement, which an exception skips. *)
Definition and_then {term : Type} (r : run term) (next : list term -> run term) : run term :=
  match r with
  | Continues regularization_terms => next regularization_terms
  | Raises regularization_terms => Raises regularization_terms
  end.

Section Loop.
(** [mygs.coil_reg_term(coeffs, target=..., weight=...)], the engine's
    constructor of a regularisation term.  The engine is not part of the
    repository: the type of its terms and the constructor are parameters.
    The constructor returns a term or raises ([None]); the spec makes a
    coefficient on a name that is not a coil of the machine a fatal error. *)
Context {term : Type}.
Variable coil_reg_term : dict float -> float -> float -> option term.

(** [regularization_terms.append(mygs.coil_reg_term(coeffs, target=target, weight=weight))] *)
Definition append_term (coeffs : dict float) (target weight : float)
           (regularization_terms : list term) : run term :=
  match coil_reg_term coeffs target weight with
  | Some t => Continues (regularization_terms ++ [t])
  | None => Raises regularization_terms
  end.

(** The body of the loop over [mygs.coil_sets.items()] for one coil name.
    The test [name not in coil_mirrors] and the two reads of
    [coil_mirrors[name]] are one lookup here. *)
Definition terms_for (mirrors : dict string) (disabled : list string) (name : string)
           (regularization_terms : list term) : run term :=
  match get mirrors name with
  | None => Continues regularization_terms
  | Some mirror =>
      if existsb (String.eqb name) disabled then
        and_then (append_term (of_items [(name, 1.0)]) 0.0 1e5 regularization_terms)
                 (append_term (of_items [(mirror, 1.0)]) 0.0 1e5)
      else
        and_then (append_term (of_items [(name, 1.0)]) 0.0 1e-1 regularization_terms)
                 (append_term (of_items [(name, 1.0); (mirror, -1.0)]) 0.0 1e0)
  end.

(** The loop: [regularization_terms] grows by the terms of each coil in
    turn, until a call raises; [coil_sets] lists the keys of
    [mygs.coil_sets] in iteration order. *)
Fixpoint regularization_loop (mirrors : dict string) (disabled : list string)
         (coil_sets : list string) (regularization_terms : list term) : run term :=
  match coil_sets with
  | [] => Continues regularization_terms
  | name :: rest =>
      and_then (terms_for mirrors disabled name regularization_terms)
               (regularization_loop mirrors disabled rest)
  end.

(** [regularization_terms = []] and the loop. *)
Definition regularization_terms (coil_sets : list string) : run term :=
  regularization_loop coil_mirrors disable_list coil_sets [].

(** What the loop passes to the constructor for the coil [name]: the term
    [t] is the result of a call with the target [0], a weight that is [1e5]
    when the coil is in the disable list and [0.1] or [1] otherwise, and
    coefficients [1] or [-1] on the coil and its mirror alone. *)
Definition built_for (mirrors : dict string) (disabled : list string) (name : string)
           (t : term) : Prop :=
  exists coeffs target weight mirror,
    coil_reg_term coeffs target weight = Some t
    /\ get mirrors name = Some mirror
    /\ target = 0
    /\ (if existsb (String.eqb name) disabled
        then weight = 1e5
        else weight = 1e-1 \/ weight = 1)
    /\ forall k c, In (k, c) coeffs -> (k = name \/ k = mirror) /\ (c = 1 \/ c = -1).

End Loop.

(** The coils of the CUTE mesh as [coil_mirrors] names them. *)
Definition cute_coils : list string :=
  map (fun i => "CS" ++ fmt02 i) (range 1 15) ++ map (fun i => "PF" ++ fmt02 i) (range 1 15).

(** Modelled from the spec: a term, "a sparse linear combination of coil
    coefficients, a scalar target value, and a positive weight". *)
Record reg_term : Type := {
  coeffs : dict float;
  target : float;
  weight : float
}.

(** Modelled from the spec: a stand-in for the engine's constructor, to run
    the loop on.  It stores its three arguments, and raises when a
    coefficient is on a name that is not a coil of the machine ("mismatched
    coil-name references" are a fatal error, section 7). *)
Definition checked_term (machine : list string) (coeffs : dict float) (target weight : float)
  : option reg_term :=
  if forallb (fun kv => existsb (String.eqb (fst kv)) machine) coeffs
  then Some {| coeffs := coeffs; target := target; weight := weight |}
  else None.

End Regularization.

(** ** A regularisation term as a combination of coil currents

    The coefficients the notebook passes are binary64 numbers; the
    combination they stand for is taken over the rationals. *)

Module Currents.

Import PyDict.
Local Open Scope Q_scope.

(** The rational number a finite binary64 number is. *)
Definition SF2Q (x : spec_float) : option Q :=
  match x with
  | S754_zero _ => Some 0
  | S754_finite s m e =>
      let n := if s then Zneg m else Zpos m in
      Some match e with
           | Z0 => n # 1
           | Zpos p => (n * 2 ^ Zpos p) # 1
           | Zneg p => n # (2 ^ p)
           end
  | S754_infinity _ | S754_nan => None
  end.

Definition Q_of_float (x : float) : option Q := SF2Q (Prim2SF x).

(** The coefficients of a term as rationals; a dictionary with an infinite
    or NaN coefficient has none. *)
Fixpoint coeffs_Q (d : dict float) : option (dict Q) :=
  match d with
  | [] => Some []
  | (k, c) :: d' =>
      match Q_of_float c, coeffs_Q d' with
      | Some q, Some r => Some ((k, q) :: r)
      | _, _ => None
      end
  end.

(** The coil currents, by coil name. *)
Definition currents : Type := string -> Q.

(** Modelled from the spec: [coeffs·I], the linear combination of coil
    currents a term takes ("each term contributes [weight · (coeffs·I −
    target)] to the residual"). *)
Fixpoint dot (c : dict Q) (I : currents) : Q :=
  match c with
  | [] => 0
  | (k, q) :: c' => q * I k + dot c' I
  end.

End Currents.

(** ** Classes of binary64 numbers, on their specification *)

Module Binary64.

Definition SFis_nan (x : spec_float) : bool :=
  match x with S754_nan => true | _ => false end.

Definition SFis_zero (x : spec_float) : bool :=
  match x with S754_zero _ => true | _ => false end.

Definition SFis_finite (x : spec_float) : bool :=
  match x with S754_zero _ | S754_finite _ _ _ => true | _ => false end.

(** The floats that are at least zero in the order. *)
Definition SFnonneg (x : spec_float) : bool :=
  match x with
  | S754_zero _ | S754_infinity false | S754_finite false _ _ => true
  | _ => false
  end.

End Binary64.

(** ** Cell 3 of the notebook: where the engine's Python module is looked for *)

Module Setup.

Import PyDict.
Local Open Scope string_scope.

(** ["/"] starts, or ends, a path. *)
Definition starts_with_sep (s : string) : bool :=
  match s with
  | String c _ => Ascii.eqb c "/"%char
  | EmptyString => false
  end.

Fixpoint ends_with_sep (s : string) : bool :=
  match s with
  | EmptyString => false
  | String c EmptyString => Ascii.eqb c "/"%char
  | String _ s' => ends_with_sep s'
  end.

(** [os.path.join(a, b)] on POSIX: an absolute [b] replaces [a]; otherwise
    the two are joined with one separator, none after an empty [a] or an
    [a] that ends in one. *)
Definition path_join (a b : string) : string :=
  if starts_with_sep b then b
  else if String.eqb a "" || ends_with_sep a then a ++ b
  else a ++ "/" ++ b.

(** What the cell reads and writes: [os.environ] and [sys.path]. *)
Record process : Type := {
  environ : dict string;
  sys_path : list string
}.

(** The cell, [home_dir] being the value of [os.path.expanduser("~")]:
    [oft_root_path = os.path.join(home_dir, "OpenFUSIONToolkit/install_release")]
    [os.environ["OFT_ROOTPATH"] = oft_root_path]
    [tokamaker_python_path = os.getenv("OFT_ROOTPATH")]
    [if tokamaker_python_path is not None:]
    [    sys.path.append(os.path.join(tokamaker_python_path, "python"))] *)
Definition setup_path (home_dir : string) (p : process) : process :=
  let oft_root_path := path_join home_dir "OpenFUSIONToolkit/install_release" in
  let environ' := set (environ p) "OFT_ROOTPATH" oft_root_path in
  match get environ' "OFT_ROOTPATH" with
  | Some tokamaker_python_path =>
      {| environ := environ';
         sys_path := sys_path p ++ [path_join tokamaker_python_path "python"] |}
  | None => {| environ := environ'; sys_path := sys_path p |}
  end.

End Setup.

(** ** Cell 9 of the notebook: the hard limits on the coil currents *)

Module Bounds.

Import PyDict.
Local Open Scope float_scope.

(** [coil_bounds = {key: [-1.E3, 1.E3] for key in mygs.coil_sets}];
    [coil_sets] lists the keys of [mygs.coil_sets] in iteration order. *)
Definition coil_bounds (coil_sets : list string) : dict (list float) :=
  of_items (map (fun key => (key, [-1e3; 1e3])) coil_sets).

End Bounds.

(** ** Cells 17, 19 and 25 of the notebook: the isoflux and saddle targets *)

Module Shape.

Local Open Scope float_scope.

(** An array of shape [(n, 2)]: a list of rows [(R, Z)]. *)
Definition points : Type := list (float * float).

(** [isoflux_pts[isoflux_pts[:,0]>0.3,:]]: the rows whose first column
    exceeds [0.3]. *)
Definition outboard (isoflux_pts : points) : points :=
  filter (fun p => 0.3 <? fst p) isoflux_pts.

(** [np.vstack((a, b))] of two arrays of rows. *)
Definition vstack (a b : points) : points := a ++ b.

(** [x_points = np.array([[0.22,-0.33],[0.20,0.34]])] *)
Definition x_points : points := [(0.22, -0.33); (0.20, 0.34)].

(** Cell 17, [created] being what [create_isoflux] returned:
    [isoflux_pts = isoflux_pts[isoflux_pts[:,0]>0.3,:]]
    [isoflux_pts = np.vstack((isoflux_pts,np.array([[0.15,0.0],])))] *)
Definition isoflux_pts (created : points) : points :=
  vstack (outboard created) [(0.15, 0.0)].

(** Cell 17: [mygs.set_isoflux(np.vstack((isoflux_pts,x_points[0,:])))] *)
Definition isoflux_first (created : points) : points :=
  vstack (isoflux_pts created) (firstn 1 x_points).

(** Cells 19 and 25: [mygs.set_isoflux(np.vstack((isoflux_pts,x_points)))] *)
Definition isoflux_scan (created : points) : points :=
  vstack (isoflux_pts created) x_points.

End Shape.

(** ** Cell 25 of the notebook: the nonlinear evolution of one scan point *)

Module TimeLoop.

Import NumPy.
Local Open Scope float_scope.

(** [dt = 0.2/abs(eig_vals[0,0])] *)
Definition time_step (growth : float) : float := 0.2 / abs growth.

(** How a run of the loop ends: it completes, the assertion fails in the
    iteration [i], or the engine raises in the iteration [i]. *)
Inductive outcome (engine : Type) : Type :=
| Completed (g : engine) (sim_time : float)
            (z0 : list (float * float)) (results : list ndarray)
| AssertionError (i : nat)
| EngineError (i : nat).

Arguments Completed {engine}.
Arguments AssertionError {engine}.
Arguments EngineError {engine}.

Section Loop.
(** The engine object [mygs] and the three members the loop uses.  The
    engine is not part of the repository: its state and these members are
    parameters.  [step_td] returns the engine after the step with
    [(time, error, nl_its, lin_its, nretry)], or raises ([None]). *)
Variable engine : Type.
Variable step_td : engine -> float -> float -> option (engine * (float * float * Z * Z * Z)).
Variable o_point : engine -> float * float.
Variable get_psi : engine -> ndarray.

(** The body of [for i in range(30)], [n] iterations from the iteration [i]:
    [sim_time, _, nl_its, lin_its, nretry = mygs.step_td(sim_time,dt)]
    [assert nretry >= 0]
    [z0.append([sim_time,mygs.o_point[1]])]
    [results.append(mygs.get_psi())] *)
Fixpoint time_loop (n i : nat) (g : engine) (sim_time dt : float)
         (z0 : list (float * float)) (results : list ndarray) : outcome engine :=
  match n with
  | O => Completed g sim_time z0 results
  | S n' =>
      match step_td g sim_time dt with
      | None => EngineError i
      | Some (g', (sim_time', _, nl_its, lin_its, nretry)) =>
          if (0 <=? nretry)%Z then
            time_loop n' (S i) g' sim_time' dt
                      (z0 ++ [(sim_time', snd (o_point g'))])
                      (results ++ [get_psi g'])
          else AssertionError i
      end
  end.

(** [sim_time = 0.0], [results = []], [z0 = [[sim_time,mygs.o_point[1]],]]
    and the loop. *)
Definition nonlinear_run (g : engine) (dt : float) : outcome engine :=
  time_loop 30 0 g 0.0 dt [(0.0, snd (o_point g))] [].

(** The calls of [step_td] a loop of [n] iterations would make if nothing
    stopped it short of an exception of the engine: each call is fed the
    engine and the time the one before returned. *)
Fixpoint calls (n : nat) (g : engine) (sim_time dt : float)
  : list (engine * (float * float * Z * Z * Z)) :=
  match n with
  | O => []
  | S n' =>
      match step_td g sim_time dt with
      | None => []
      | Some (g', r) => (g', r) :: calls n' g' (fst (fst (fst (fst r)))) dt
      end
  end.

(** The row of [z0] and the entry of [results] the loop appends after a
    call. *)
Definition row_of (c : engine * (float * float * Z * Z * Z)) : float * float :=
  (fst (fst (fst (fst (snd c)))), snd (o_point (fst c))).

Definition psi_of (c : engine * (float * float * Z * Z * Z)) : ndarray :=
  get_psi (fst c).

End Loop.

(** The members of a call's result. *)
Definition call_time {engine : Type} (c : engine * (float * float * Z * Z * Z)) : float :=
  fst (fst (fst (fst (snd c)))).

Definition call_nretry {engine : Type} (c : engine * (float * float * Z * Z * Z)) : Z :=
  snd (snd c).

(** Two stand-ins for the engine, to run the loop on: the state is the
    vertical position of the magnetic axis, which a step doubles.  The
    second reports a negative retry count once the position has reached 8. *)
Definition toy_step (z t dt : float) : option (float * (float * float * Z * Z * Z)) :=
  Some (z * 2, (t + dt, 0, 3%Z, 5%Z, 0%Z)).

Definition faulty_step (z t dt : float) : option (float * (float * float * Z * Z * Z)) :=
  Some (z * 2, (t + dt, 0, 3%Z, 5%Z, if z <? 8 then 0%Z else (-1)%Z)).

Definition toy_o_point (z : float) : float * float := (0.32, z).

Definition toy_get_psi (z : float) : ndarray := [z].

End TimeLoop.

(** ** Cell 31 of the notebook: the vertical position relative to its start *)

Module History.

Local Open Scope float_scope.

(** [z_hist = np.asarray(z0); z_hist = z_hist[1:,:] - [z_hist[1,0], z_hist[0,1]]]:
    the rows after the first, less the time of the second row and the
    position of the first.  [z_hist[1,0]] raises [IndexError] on a history
    of fewer than two rows. *)
Definition z_hist (z0 : list (float * float)) : option (list (float * float)) :=
  match z0 with
  | r0 :: r1 :: rest =>
      Some (map (fun r => (fst r - fst r1, snd r - snd r0)) (r1 :: rest))
  | _ => None
  end.

(** [z_hist[:,0]*1.E3] and [abs(z_hist[:,1])], the two plotted columns. *)
Definition time_ms (h : list (float * float)) : list float :=
  map (fun r => fst r * 1e3) h.

Definition displacement (h : list (float * float)) : list float :=
  map (fun r => abs (snd r)) h.

End History.

(** ** Binary64 facts used by the notebook code *)

Module F64.

Import Binary64.
Local Open Scope float_scope.

(** The sign of a rounded result is the sign handed to the rounding
    function: negating the sign negates the result. *)
Lemma binary_round_aux_negb (s : bool) (m e : Z) (l : location) :
  binary_round_aux prec emax (negb s) m e l
  = SFopp (binary_round_aux prec emax s m e l).
Proof.
  unfold binary_round_aux.
  destruct (shr_fexp prec emax m e l) as [mrs e1].
  destruct (shr_fexp prec emax _ e1 loc_Exact) as [mrs2 e2].
  destruct (shr_m mrs2); simpl; try reflexivity.
  destruct (Z.leb _ _); reflexivity.
Qed.

Lemma SFmul_opp_r (x y : spec_float) :
  SFmul prec emax x (SFopp y) = SFopp (SFmul prec emax x y).
Proof.
  destruct x as [sx|sx| |sx mx ex], y as [sy|sy| |sy my ey]; simpl;
    rewrite <- ?negb_xorb_r; try reflexivity.
  apply binary_round_aux_negb.
Qed.

Lemma SFmul_opp_l (x y : spec_float) :
  SFmul prec emax (SFopp x) y = SFopp (SFmul prec emax x y).
Proof.
  destruct x as [sx|sx| |sx mx ex], y as [sy|sy| |sy my ey]; simpl;
    rewrite <- ?negb_xorb_l; try reflexivity.
  apply binary_round_aux_negb.
Qed.

Lemma SFopp_involutive (x : spec_float) : SFopp (SFopp x) = x.
Proof. destruct x; simpl; rewrite ?negb_involutive; reflexivity. Qed.

Lemma SFdiv_opp_opp (x y : spec_float) :
  SFdiv prec emax (SFopp x) (SFopp y) = SFdiv prec emax x y.
Proof.
  destruct x as [sx|sx| |sx mx ex], y as [sy|sy| |sy my ey]; simpl;
    rewrite ?xorb_negb_negb; reflexivity.
Qed.

Lemma abs_opp (x : float) : abs (- x) = abs x.
Proof.
  apply Prim2SF_inj. rewrite !abs_spec, opp_spec.
  destruct (Prim2SF x); reflexivity.
Qed.

Lemma mul_opp_r (x y : float) : x * (- y) = - (x * y).
Proof.
  apply Prim2SF_inj. rewrite opp_spec, !mul_spec, opp_spec.
  apply SFmul_opp_r.
Qed.

Lemma mul_opp_l (x y : float) : (- x) * y = - (x * y).
Proof.
  apply Prim2SF_inj. rewrite opp_spec, !mul_spec, opp_spec.
  apply SFmul_opp_l.
Qed.

Lemma mul_opp_opp (x y : float) : (- x) * (- y) = x * y.
Proof.
  rewrite mul_opp_l, mul_opp_r.
  apply Prim2SF_inj. rewrite !opp_spec. apply SFopp_involutive.
Qed.

Lemma div_opp_opp (x y : float) : (- x) / (- y) = x / y.
Proof.
  apply Prim2SF_inj. rewrite !div_spec, !opp_spec.
  apply SFdiv_opp_opp.
Qed.

(** *** Zero, NaN and the order *)

Lemma is_nan_spec (x : float) : is_nan x = SFis_nan (Prim2SF x).
Proof.
  unfold is_nan. rewrite eqb_spec. unfold SFeqb.
  destruct (Prim2SF x) as [s|s| |s m e]; simpl; try reflexivity.
  - destruct s; reflexivity.
  - rewrite Z.compare_refl, Pos.compare_cont_refl. destruct s; reflexivity.
Qed.

Lemma Prim2SF_zero : Prim2SF 0 = S754_zero false.
Proof. reflexivity. Qed.

Lemma eqb_zero_spec (x : float) : (x =? 0) = SFis_zero (Prim2SF x).
Proof.
  rewrite eqb_spec, Prim2SF_zero. unfold SFeqb.
  destruct (Prim2SF x) as [s|s| |s m e]; simpl; try reflexivity;
    destruct s; reflexivity.
Qed.

Lemma is_nan_abs (x : float) : is_nan (abs x) = is_nan x.
Proof.
  rewrite !is_nan_spec, abs_spec. destruct (Prim2SF x); reflexivity.
Qed.

(** A NaN compares unequal to everything, zero included. *)
Lemma nan_neq_zero (x : float) : is_nan x = true -> (x =? 0) = false.
Proof.
  rewrite is_nan_spec, eqb_zero_spec. destruct (Prim2SF x); simpl; congruence.
Qed.

(** [<=] on binary64 is a total preorder away from NaN. *)
Lemma SFleb_trans (x y z : spec_float) :
  SFleb x y = true -> SFleb y z = true -> SFleb x z = true.
Proof.
  unfold SFleb, SFcompare.
  destruct x as [[]|[]| |[] m1 e1], y as [[]|[]| |[] m2 e2], z as [[]|[]| |[] m3 e3];
    try reflexivity; try discriminate;
    change (Pos.compare_cont Eq) with Pos.compare;
    destruct (Z.compare_spec e1 e2), (Z.compare_spec e2 e3), (Z.compare_spec e1 e3);
    try lia; try reflexivity; try discriminate; subst;
    destruct (Pos.compare_spec m1 m2), (Pos.compare_spec m2 m3), (Pos.compare_spec m1 m3);
    simpl; try lia; try reflexivity; try discriminate.
Qed.

Lemma SFleb_total (x y : spec_float) :
  SFis_nan x = false -> SFis_nan y = false -> SFleb x y = false -> SFleb y x = true.
Proof.
  unfold SFleb, SFcompare.
  destruct x as [[]|[]| |[] m1 e1], y as [[]|[]| |[] m2 e2];
    try reflexivity; try discriminate; intros _ _;
    change (Pos.compare_cont Eq) with Pos.compare;
    rewrite (Z.compare_antisym e1 e2), (Pos.compare_antisym m1 m2);
    destruct (Z.compare e1 e2), (Pos.compare m1 m2); simpl;
    try reflexivity; try discriminate.
Qed.

Lemma SFleb_refl (x : spec_float) : SFis_nan x = false -> SFleb x x = true.
Proof.
  unfold SFleb, SFcompare.
  destruct x as [[]|[]| |[] m e]; try reflexivity; try discriminate; intros _;
    rewrite Z.compare_refl, Pos.compare_cont_refl; reflexivity.
Qed.

Lemma leb_trans (x y z : float) :
  (x <=? y) = true -> (y <=? z) = true -> (x <=? z) = true.
Proof. rewrite !leb_spec. apply SFleb_trans. Qed.

Lemma leb_total (x y : float) :
  is_nan x = false -> is_nan y = false -> (x <=? y) = false -> (y <=? x) = true.
Proof. rewrite !is_nan_spec, !leb_spec. apply SFleb_total. Qed.

Lemma leb_refl (x : float) : is_nan x = false -> (x <=? x) = true.
Proof. rewrite is_nan_spec, leb_spec. apply SFleb_refl. Qed.

(** Only a zero has magnitude below the magnitude of a zero. *)
Lemma abs_leb_zero (x y : float) :
  (abs x <=? abs y) = true -> (y =? 0) = true -> (x =? 0) = true.
Proof.
  rewrite leb_spec, !abs_spec, !eqb_zero_spec. unfold SFleb.
  destruct (Prim2SF x) as [sx|sx| |sx mx ex], (Prim2SF y) as [sy|sy| |sy my ey];
    simpl; congruence.
Qed.

(** *** A square is never negative *)

Lemma shr_1_nonneg (mrs : shr_record) :
  (0 <= shr_m mrs)%Z -> (0 <= shr_m (shr_1 mrs))%Z.
Proof.
  destruct mrs as [m r s]. simpl.
  destruct m as [|p|p]; try destruct p; simpl; lia.
Qed.

Lemma iter_shr_1_nonneg (p : positive) (mrs : shr_record) :
  (0 <= shr_m mrs)%Z -> (0 <= shr_m (iter_pos shr_1 p mrs))%Z.
Proof.
  revert mrs. induction p as [p IH|p IH|]; intros mrs H; simpl.
  - apply IH, IH, shr_1_nonneg, H.
  - apply IH, IH, H.
  - apply shr_1_nonneg, H.
Qed.

Lemma shr_fexp_nonneg (m e : Z) (l : location) :
  (0 <= m)%Z -> (0 <= shr_m (fst (shr_fexp prec emax m e l)))%Z.
Proof.
  intros H. unfold shr_fexp, shr.
  assert (H0 : (0 <= shr_m (shr_record_of_loc m l))%Z).
  { destruct l as [|[]]; exact H. }
  destruct (fexp prec emax (Zdigits2 m + e) - e)%Z; simpl; auto.
  apply iter_shr_1_nonneg, H0.
Qed.

Lemma round_nearest_even_nonneg (m : Z) (l : location) :
  (0 <= m)%Z -> (0 <= round_nearest_even m l)%Z.
Proof.
  intros H. destruct l as [|[]]; simpl; try lia.
  destruct (Z.even m); lia.
Qed.

Lemma binary_round_aux_nonneg (m e : Z) (l : location) :
  (0 <= m)%Z -> SFnonneg (binary_round_aux prec emax false m e l) = true.
Proof.
  intros H. unfold binary_round_aux.
  pose proof (shr_fexp_nonneg m e l H) as H1.
  destruct (shr_fexp prec emax m e l) as [mrs e1]. simpl in H1.
  pose proof (shr_fexp_nonneg _ e1 loc_Exact
                (round_nearest_even_nonneg _ (loc_of_shr_record mrs) H1)) as H2.
  destruct (shr_fexp prec emax _ e1 loc_Exact) as [mrs2 e2]. simpl in H2.
  destruct (shr_m mrs2); try lia; try reflexivity.
  destruct (Z.leb _ _); reflexivity.
Qed.

Lemma SFmul_self_nonneg (x : spec_float) :
  SFis_nan x = false -> SFnonneg (SFmul prec emax x x) = true.
Proof.
  destruct x as [s|s| |s m e]; simpl; try discriminate; intros _;
    rewrite ?xorb_nilpotent; try reflexivity.
  apply binary_round_aux_nonneg. lia.
Qed.

Lemma SFnonneg_leb (x : spec_float) :
  SFnonneg x = true -> SFleb (S754_zero false) x = true.
Proof. unfold SFleb. destruct x as [s|[]| |[] m e]; simpl; congruence. Qed.

Lemma mul_self_nonneg (x : float) : is_nan x = false -> (0 <=? x * x) = true.
Proof.
  rewrite is_nan_spec, leb_spec, mul_spec, Prim2SF_zero. intros H.
  apply SFnonneg_leb, SFmul_self_nonneg, H.
Qed.

Lemma SFnonneg_not_ltb (x : spec_float) :
  SFnonneg x = true -> SFltb x (S754_zero false) = false.
Proof. unfold SFltb. destruct x as [s|[]| |[] m e]; simpl; congruence. Qed.

(** A square never compares below zero, NaN included. *)
Lemma mul_self_not_neg (x : float) : (x * x <? 0) = false.
Proof.
  rewrite ltb_spec, mul_spec, Prim2SF_zero.
  destruct (SFis_nan (Prim2SF x)) eqn:Hnan.
  - destruct (Prim2SF x); try discriminate. reflexivity.
  - apply SFnonneg_not_ltb, SFmul_self_nonneg, Hnan.
Qed.

(** *** Division by zero *)

Lemma is_finite_spec (x : float) : is_finite x = SFis_finite (Prim2SF x).
Proof.
  unfold is_finite, is_infinity.
  rewrite is_nan_spec, eqb_spec, abs_spec.
  change (Prim2SF infinity) with (S754_infinity false). unfold SFeqb.
  destruct (Prim2SF x) as [s|s| |s m e]; reflexivity.
Qed.

(** Dividing by a zero gives an infinity or a NaN, never a finite number. *)
Lemma div_zero_not_finite (x s : float) :
  (s =? 0) = true -> is_finite (x / s) = false.
Proof.
  rewrite eqb_zero_spec, is_finite_spec, div_spec.
  destruct (Prim2SF x) as [sx|sx| |sx mx ex], (Prim2SF s) as [sy|sy| |sy my ey];
    simpl; congruence.
Qed.

(** Subtracting an infinity or a NaN gives an infinity or a NaN. *)
Lemma sub_not_finite (x y : float) :
  is_finite y = false -> is_finite (x - y) = false.
Proof.
  rewrite !is_finite_spec, sub_spec.
  destruct (Prim2SF x) as [sx|sx| |sx mx ex], (Prim2SF y) as [sy|sy| |sy my ey];
    simpl; try congruence; destruct sx, sy; reflexivity.
Qed.

End F64.

(** ** Facts about the NumPy operations *)

Module NumPyFacts.

Import NumPy.
Local Open Scope float_scope.

Lemma select_defined (a : ndarray) (mask : list bool) :
  length a = length mask -> exists w, select a mask = Some w.
Proof.
  revert mask. induction a as [|x a IH]; intros [|b mask] H; simpl in H;
    try discriminate.
  - exists []. reflexivity.
  - destruct (IH mask) as [r E]; [lia|]. simpl. rewrite E. eauto.
Qed.

Lemma select_map (f : float -> float) (a : ndarray) (mask : list bool) :
  select (map f a) mask = option_map (map f) (select a mask).
Proof.
  revert mask. induction a as [|x a IH]; intros [|b mask]; simpl; try reflexivity.
  rewrite IH. destruct (select a mask) as [r|]; simpl; [|reflexivity].
  destruct b; reflexivity.
Qed.

(** Every selected entry sits in the array at a position the mask marks,
    and [mask_index] finds that position. *)
Lemma select_mask_index (a : ndarray) (mask : list bool) (w : ndarray) (k : nat) (x : float) :
  select a mask = Some w -> nth_error w k = Some x ->
  exists j, mask_index mask k = Some j
            /\ nth_error a j = Some x /\ nth_error mask j = Some true.
Proof.
  revert mask w k. induction a as [|y a IH]; intros [|b mask] w k H Hk; simpl in H;
    try discriminate.
  - injection H as <-. destruct k; discriminate.
  - destruct (select a mask) as [r|] eqn:E; [|discriminate].
    injection H as <-. destruct b.
    + destruct k as [|k]; simpl in Hk.
      * injection Hk as ->. exists 0%nat. auto.
      * destruct (IH mask r k E Hk) as (j & Hj & Ha & Hm).
        exists (S j). simpl. rewrite Hj. auto.
    + destruct (IH mask r k E Hk) as (j & Hj & Ha & Hm).
      exists (S j). simpl. rewrite Hj. auto.
Qed.

(** Conversely an entry at a marked position is selected. *)
Lemma select_In (a : ndarray) (mask : list bool) (w : ndarray) (j : nat) (x : float) :
  select a mask = Some w ->
  nth_error a j = Some x -> nth_error mask j = Some true -> In x w.
Proof.
  revert mask w j. induction a as [|y a IH]; intros [|b mask] w j H Ha Hm;
    simpl in H; try discriminate.
  - destruct j; discriminate.
  - destruct (select a mask) as [r|] eqn:E; [|discriminate].
    injection H as <-. destruct j as [|j]; simpl in Ha, Hm.
    + injection Ha as ->. injection Hm as ->. left. reflexivity.
    + pose proof (IH mask r j E Ha Hm) as Hin.
      destruct b; [right|]; exact Hin.
Qed.

(** The scan keeps a maximum of everything it has seen, unless it stops on
    a NaN. *)
Lemma argmax_loop_spec (l pre : ndarray) (mp : float) (max_ind : nat) :
  nth_error pre max_ind = Some mp ->
  is_nan mp = false ->
  (forall y, In y pre -> (y <=? mp) = true) ->
  exists m, nth_error (pre ++ l) (argmax_loop l (length pre) mp max_ind) = Some m
            /\ (is_nan m = false -> forall y, In y (pre ++ l) -> (y <=? m) = true).
Proof.
  revert pre mp max_ind.
  induction l as [|x l IH]; intros pre mp max_ind Hmp Hnan Hmax; simpl.
  - exists mp. rewrite app_nil_r. auto.
  - assert (Hlen : length (pre ++ [x]) = S (length pre))
      by (rewrite length_app; simpl; lia).
    assert (Happ : (pre ++ [x]) ++ l = pre ++ x :: l)
      by (rewrite <- app_assoc; reflexivity).
    destruct (x <=? mp) eqn:Hle; simpl.
    + destruct (IH (pre ++ [x]) mp max_ind) as (m & Hm & Hall).
      * rewrite nth_error_app1; [exact Hmp|]. apply nth_error_Some. congruence.
      * exact Hnan.
      * intros y Hy. apply in_app_or in Hy. destruct Hy as [Hy|[<-|[]]]; auto.
      * rewrite Hlen, Happ in *. eauto.
    + destruct (is_nan x) eqn:Hx.
      * exists x. split.
        -- rewrite nth_error_app2, Nat.sub_diag; [reflexivity|lia].
        -- congruence.
      * destruct (IH (pre ++ [x]) x (length pre)) as (m & Hm & Hall).
        -- rewrite nth_error_app2, Nat.sub_diag; [reflexivity|lia].
        -- exact Hx.
        -- intros y Hy. apply in_app_or in Hy. destruct Hy as [Hy|[<-|[]]].
           ++ apply F64.leb_trans with mp; [auto|].
              apply F64.leb_total; assumption.
           ++ apply F64.leb_refl, Hx.
        -- rewrite Hlen, Happ in *. eauto.
Qed.

(** [argmax] returns the position of an entry that is a NaN or a maximum. *)
Lemma argmax_spec (a : ndarray) (k : nat) :
  argmax a = Some k ->
  exists m, nth_error a k = Some m
            /\ (is_nan m = false -> forall y, In y a -> (y <=? m) = true).
Proof.
  destruct a as [|x l]; simpl; [discriminate|]. intros H. injection H as <-.
  destruct (is_nan x) eqn:Hx.
  - exists x. split; [reflexivity|congruence].
  - destruct (argmax_loop_spec l [x] x 0) as (m & Hm & Hall); auto.
    + intros y [<-|[]]. apply F64.leb_refl, Hx.
    + exists m. auto.
Qed.

Lemma argmax_defined (a : ndarray) : a <> [] -> exists k, argmax a = Some k.
Proof. destruct a; [congruence|]. simpl. eauto. Qed.

(** Every entry of a broadcast result is the operation applied to an entry
    of each argument. *)
Lemma zip_with_In (f : float -> float -> float) (a b : ndarray) (y : float) :
  In y (zip_with f a b) -> exists p q, In p a /\ In q b /\ y = f p q.
Proof.
  revert b. induction a as [|x a IH]; intros [|z b] H; simpl in H; try contradiction.
  destruct H as [<-|H].
  - exists x, z. simpl. auto.
  - destruct (IH b H) as (p & q & Hp & Hq & E). exists p, q. simpl. auto.
Qed.

Lemma broadcast_In (f : float -> float -> float) (a b l : ndarray) (y : float) :
  broadcast f a b = Some l -> In y l ->
  exists p q, In p a /\ In q b /\ y = f p q.
Proof.
  intros H Hy.
  assert (Hl : forall x, In y (map (f x) b) -> In x a ->
                         exists p q, In p a /\ In q b /\ y = f p q).
  { intros x Hin Hx. apply in_map_iff in Hin. destruct Hin as (q & E & Hq).
    exists x, q. auto. }
  assert (Hr : forall z, In y (map (fun x => f x z) a) -> In z b ->
                         exists p q, In p a /\ In q b /\ y = f p q).
  { intros z Hin Hz. apply in_map_iff in Hin. destruct Hin as (p & E & Hp).
    exists p, z. auto. }
  unfold broadcast in H.
  destruct a as [|x [|x' a]].
  - destruct b as [|z [|z' b]]; simpl in H; try discriminate;
      injection H as <-; destruct Hy.
  - injection H as <-. apply (Hl x Hy). left. reflexivity.
  - destruct b as [|z [|z' b]].
    + simpl in H. discriminate.
    + injection H as <-. apply (Hr z Hy). left. reflexivity.
    + destruct (Nat.eqb _ _); [|discriminate].
      injection H as <-.
      exact (zip_with_In f (x :: x' :: a) (z :: z' :: b) y Hy).
Qed.

Lemma broadcast_defined (f : float -> float -> float) (a b : ndarray) :
  length a = length b -> exists l, broadcast f a b = Some l.
Proof.
  intros H. unfold broadcast.
  destruct a as [|x [|x' a]]; [| eauto |].
  - destruct b as [|z b]; [|discriminate]. simpl. eauto.
  - destruct b as [|z [|z' b]]; try discriminate.
    rewrite H, Nat.eqb_refl. eauto.
Qed.

End NumPyFacts.

(** ** The sign normalisation of the leading eigenvector *)

Module DriverFacts.

Import NumPy Driver NumPyFacts.
Local Open Scope float_scope.

(** A node lies above the midplane when the mask [mygs.r[:,1]>0.0] marks it. *)
Lemma upper_node (rz : ndarray) (j : nat) :
  nth_error (gt_scalar rz 0) j = Some true
  <-> exists z, nth_error rz j = Some z /\ (0 <? z) = true.
Proof.
  unfold gt_scalar. rewrite nth_error_map.
  destruct (nth_error rz j) as [z|]; simpl; split.
  - intros H. exists z. split; congruence.
  - intros (z' & Hz & Hpos). congruence.
  - discriminate.
  - intros (z' & Hz & _). discriminate.
Qed.

(** Negating the eigenvector negates [eig_sign]: the magnitudes, hence the
    node [argmax] picks, are the same. *)
Lemma eig_sign_opp (vec0 rz : ndarray) :
  eig_sign (map opp vec0) rz = option_map opp (eig_sign vec0 rz).
Proof.
  unfold eig_sign, upper_values. rewrite select_map.
  destruct (select vec0 (gt_scalar rz 0)) as [w|]; simpl; [|reflexivity].
  assert (E : absolute (map opp w) = absolute w).
  { unfold absolute. rewrite map_map. apply map_ext. exact F64.abs_opp. }
  rewrite E. destruct (argmax (absolute w)) as [k|]; [|reflexivity].
  rewrite nth_error_map. reflexivity.
Qed.

Lemma eig_node_opp (vec0 rz : ndarray) :
  eig_node (map opp vec0) rz = eig_node vec0 rz.
Proof.
  unfold eig_node, upper_values. rewrite select_map.
  destruct (select vec0 (gt_scalar rz 0)) as [w|]; simpl; [|reflexivity].
  unfold absolute. rewrite map_map.
  rewrite (map_ext _ _ F64.abs_opp). reflexivity.
Qed.

Lemma mul_scalar_opp (vec0 : ndarray) (s : float) :
  mul_scalar (map opp vec0) (- s) = mul_scalar vec0 s.
Proof.
  unfold mul_scalar. rewrite map_map. apply map_ext.
  intros x. apply F64.mul_opp_opp.
Qed.

Lemma perturbation_opp (vec0 : ndarray) (psi_bounds : float * float) (s : float) :
  perturbation (map opp vec0) psi_bounds (- s) = perturbation vec0 psi_bounds s.
Proof.
  unfold perturbation, div_scalar, mul_scalar, scalar_mul.
  rewrite !map_map. apply map_ext. intros x.
  rewrite F64.mul_opp_r, F64.mul_opp_l. apply F64.div_opp_opp.
Qed.

(** [eig_sign] is the eigenvector's value at [eig_node], a node with [Z > 0]. *)
Lemma eig_sign_at_node (vec0 rz : ndarray) (s : float) :
  eig_sign vec0 rz = Some s ->
  exists j, eig_node vec0 rz = Some j
            /\ nth_error vec0 j = Some s
            /\ nth_error (gt_scalar rz 0) j = Some true.
Proof.
  unfold eig_sign, eig_node.
  destruct (upper_values vec0 rz) as [w|] eqn:Ew; [|discriminate].
  destruct (argmax (absolute w)) as [k|]; [|discriminate].
  intros Hk. exact (select_mask_index _ _ _ _ _ Ew Hk).
Qed.

(** Unless it is a NaN, [eig_sign] has the largest magnitude among the
    eigenvector's values at the nodes with [Z > 0]. *)
Lemma eig_sign_max (vec0 rz : ndarray) (s : float) :
  eig_sign vec0 rz = Some s -> is_nan s = false ->
  forall j x, nth_error vec0 j = Some x ->
              nth_error (gt_scalar rz 0) j = Some true ->
              (abs x <=? abs s) = true.
Proof.
  unfold eig_sign.
  destruct (upper_values vec0 rz) as [w|] eqn:Ew; [|discriminate].
  destruct (argmax (absolute w)) as [k|] eqn:Ek; [|discriminate].
  intros Hk Hnan j x Hx Hj.
  destruct (argmax_spec _ _ Ek) as (m & Hm & Hall).
  unfold absolute in Hm. rewrite nth_error_map, Hk in Hm.
  injection Hm as <-. apply Hall.
  - rewrite F64.is_nan_abs. exact Hnan.
  - apply in_map. exact (select_In _ _ _ _ _ Ew Hx Hj).
Qed.

(** [eig_sign] is defined as soon as the arrays agree in length and some
    node has [Z > 0]. *)
Lemma eig_sign_defined (vec0 rz : ndarray) (j : nat) (x : float) :
  length vec0 = length rz ->
  nth_error vec0 j = Some x ->
  nth_error (gt_scalar rz 0) j = Some true ->
  exists s, eig_sign vec0 rz = Some s.
Proof.
  intros Hlen Hx Hj. unfold eig_sign, upper_values.
  destruct (select_defined vec0 (gt_scalar rz 0)) as [w Ew].
  { unfold gt_scalar. rewrite length_map. exact Hlen. }
  rewrite Ew. pose proof (select_In _ _ _ _ _ Ew Hx Hj) as Hin.
  destruct (argmax_defined (absolute w)) as [k Ek].
  { destruct w; [destruct Hin|discriminate]. }
  rewrite Ek. destruct (argmax_spec _ _ Ek) as (m & Hm & _).
  unfold absolute in Hm. rewrite nth_error_map in Hm.
  destruct (nth_error w k) as [s|]; [eauto|discriminate].
Qed.

(** The division in [psi_ic] is not guarded: with arrays of one length
    [psi_ic] is computed whatever the value of [eig_sign], and a zero
    [eig_sign] turns every entry into an infinity or a NaN. *)
Lemma psi_ic_defined (psi0 vec0 rz : ndarray) (psi_bounds : float * float) (s : float) :
  length psi0 = length vec0 ->
  eig_sign vec0 rz = Some s ->
  exists l, psi_ic psi0 vec0 rz psi_bounds = Some l.
Proof.
  intros Hlen Hs. unfold psi_ic, subtract. rewrite Hs.
  apply broadcast_defined.
  unfold perturbation, div_scalar, mul_scalar, scalar_mul.
  rewrite !length_map. exact Hlen.
Qed.

Lemma psi_ic_zero_divisor (psi0 vec0 rz : ndarray) (psi_bounds : float * float)
      (s : float) (l : ndarray) :
  eig_sign vec0 rz = Some s -> (s =? 0) = true ->
  psi_ic psi0 vec0 rz psi_bounds = Some l ->
  forall y, In y l -> is_finite y = false.
Proof.
  intros Hs Hz Hl y Hy. unfold psi_ic, subtract in Hl. rewrite Hs in Hl.
  destruct (broadcast_In _ _ _ _ _ Hl Hy) as (p & q & _ & Hq & ->).
  apply F64.sub_not_finite.
  unfold perturbation, div_scalar in Hq. apply in_map_iff in Hq.
  destruct Hq as (t & <- & _). apply F64.div_zero_not_finite, Hz.
Qed.

(** C9.  Replacing the leading eigenvector [eig_vecs[0,:]] by its negation
    negates [eig_sign] and leaves both the stored mode
    [eig_vecs[0,:]*eig_sign] and the perturbed initial condition [psi_ic]
    unchanged, bit for bit.  [eig_sign] is read at a node with [Z > 0]
    where the eigenvector has the largest magnitude among such nodes; the
    stored mode's value at that node is [eig_sign*eig_sign], which never
    compares below zero and is at least zero whenever [eig_sign] is a number
    (not a NaN). *)
Theorem sign_canonical (psi0 vec0 rz : ndarray) (psi_bounds : float * float) :
  eig_sign (map opp vec0) rz = option_map opp (eig_sign vec0 rz)
  /\ mode (map opp vec0) rz = mode vec0 rz
  /\ psi_ic psi0 (map opp vec0) rz psi_bounds = psi_ic psi0 vec0 rz psi_bounds
  /\ forall s, eig_sign vec0 rz = Some s ->
       exists j m,
         eig_node vec0 rz = Some j
         /\ nth_error (gt_scalar rz 0) j = Some true
         /\ nth_error vec0 j = Some s
         /\ mode vec0 rz = Some m
         /\ nth_error m j = Some (s * s)
         /\ (s * s <? 0) = false
         /\ (is_nan s = false ->
             (0 <=? s * s) = true
             /\ forall i x, nth_error vec0 i = Some x ->
                            nth_error (gt_scalar rz 0) i = Some true ->
                            (abs x <=? abs s) = true).
Proof.
  repeat split.
  - apply eig_sign_opp.
  - unfold mode. rewrite eig_sign_opp.
    destruct (eig_sign vec0 rz) as [s|]; simpl; [|reflexivity].
    rewrite mul_scalar_opp. reflexivity.
  - unfold psi_ic. rewrite eig_sign_opp.
    destruct (eig_sign vec0 rz) as [s|]; simpl; [|reflexivity].
    rewrite perturbation_opp. reflexivity.
  - intros s Hs.
    destruct (eig_sign_at_node _ _ _ Hs) as (j & Hj & Hv & Hz).
    exists j, (mul_scalar vec0 s). unfold mode. rewrite Hs.
    repeat split; auto.
    + unfold mul_scalar. rewrite nth_error_map, Hv. reflexivity.
    + apply F64.mul_self_not_neg.
    + apply F64.mul_self_nonneg. assumption.
    + apply eig_sign_max; assumption.
Qed.

(** C10.  For an eigenvector and a node table of one length, the division
    by [eig_sign] in [psi_ic] has a nonzero divisor exactly when the leading
    eigenvector is nonzero at some mesh node with [Z > 0]. *)
Theorem eig_sign_nonzero_iff (vec0 rz : ndarray) :
  length vec0 = length rz ->
  ((exists s, eig_sign vec0 rz = Some s /\ (s =? 0) = false)
   <->
   (exists j x z, nth_error vec0 j = Some x /\ nth_error rz j = Some z
                  /\ (0 <? z) = true /\ (x =? 0) = false)).
Proof.
  intros Hlen. split.
  - intros (s & Hs & Hnz).
    destruct (eig_sign_at_node _ _ _ Hs) as (j & _ & Hv & Hz).
    apply upper_node in Hz. destruct Hz as (z & Hz & Hpos).
    exists j, s, z. auto.
  - intros (j & x & z & Hx & Hz & Hpos & Hnz).
    assert (Hj : nth_error (gt_scalar rz 0) j = Some true)
      by (apply upper_node; eauto).
    destruct (eig_sign_defined _ _ _ _ Hlen Hx Hj) as [s Hs].
    exists s. split; [exact Hs|].
    destruct (is_nan s) eqn:Hnan.
    + apply F64.nan_neq_zero, Hnan.
    + destruct (s =? 0) eqn:E; [|reflexivity].
      pose proof (eig_sign_max _ _ _ Hs Hnan j x Hx Hj) as Hmax.
      rewrite (F64.abs_leb_zero _ _ Hmax E) in Hnz. discriminate.
Qed.

(** *** The notebook code on a four-node mesh *)

Example eig_sign_example :
  eig_sign [0.5; -2; 1.5; 0.25] [-1; 0.5; 1; 0] = Some (-2)
  /\ eig_node [0.5; -2; 1.5; 0.25] [-1; 0.5; 1; 0] = Some 1%nat
  /\ mode [0.5; -2; 1.5; 0.25] [-1; 0.5; 1; 0] = Some [-1; 4; -3; -0.5]
  /\ mode [-0.5; 2; -1.5; -0.25] [-1; 0.5; 1; 0] = Some [-1; 4; -3; -0.5].
Proof. vm_compute. repeat split; reflexivity. Qed.

(** No node above the midplane: [argmax] of an empty array raises. *)
Example eig_sign_no_upper_node : eig_sign [1; 2] [-1; 0] = None.
Proof. reflexivity. Qed.

(** An eigenvector that vanishes above the midplane: [eig_sign] is zero and
    [psi_ic] is computed all the same, every entry a NaN. *)
Example psi_ic_zero_eigenvector :
  eig_sign [0; 0; 3] [1; 1; -1] = Some 0
  /\ psi_ic [1; 2; 3] [0; 0; 3] [1; 1; -1] (-0.5, 0.25) = Some [nan; nan; neg_infinity].
Proof. vm_compute. split; reflexivity. Qed.

Lemma sign_canonical_witness :
  eig_sign [0.5; -2; 1.5; 0.25] [-1; 0.5; 1; 0] = Some (-2)
  /\ is_nan (-2) = false
  /\ mode (map opp [0.5; -2; 1.5; 0.25]) [-1; 0.5; 1; 0]
     = mode [0.5; -2; 1.5; 0.25] [-1; 0.5; 1; 0]
  /\ psi_ic [1; 2; 3; 4] (map opp [0.5; -2; 1.5; 0.25]) [-1; 0.5; 1; 0] (-0.5, 0.25)
     = psi_ic [1; 2; 3; 4] [0.5; -2; 1.5; 0.25] [-1; 0.5; 1; 0] (-0.5, 0.25)
  /\ (0 <=? (-2) * (-2)) = true.
Proof.
  destruct (sign_canonical [1; 2; 3; 4] [0.5; -2; 1.5; 0.25] [-1; 0.5; 1; 0] (-0.5, 0.25))
    as (_ & Hmode & Hpsi & Hnode).
  assert (Hs : eig_sign [0.5; -2; 1.5; 0.25] [-1; 0.5; 1; 0] = Some (-2))
    by (vm_compute; reflexivity).
  destruct (Hnode (-2) Hs) as (j & m & _ & _ & _ & _ & _ & _ & Hpos).
  split; [exact Hs|]. split; [reflexivity|].
  split; [exact Hmode|]. split; [exact Hpsi|].
  apply Hpos. reflexivity.
Defined.

(** With a NaN among the values above the midplane [eig_sign] is that NaN,
    and the stored mode is NaN at every node. *)
Example eig_sign_nan :
  eig_sign [0.5; nan; 1.5] [1; 1; 1] = Some nan
  /\ mode [0.5; nan; 1.5] [1; 1; 1] = Some [nan; nan; nan]
  /\ (0 <=? nan * nan) = false.
Proof. vm_compute. repeat split; reflexivity. Qed.

Lemma eig_sign_nonzero_iff_witness :
  length [0.5; -2; 1.5; 0.25] = length [-1; 0.5; 1; 0]
  /\ ((exists s, eig_sign [0.5; -2; 1.5; 0.25] [-1; 0.5; 1; 0] = Some s
                 /\ (s =? 0) = false)
      <->
      (exists j x z, nth_error [0.5; -2; 1.5; 0.25] j = Some x
                     /\ nth_error [-1; 0.5; 1; 0] j = Some z
                     /\ (0 <? z) = true /\ (x =? 0) = false)).
Proof.
  split; [reflexivity|].
  apply (eig_sign_nonzero_iff [0.5; -2; 1.5; 0.25] [-1; 0.5; 1; 0]).
  reflexivity.
Defined.

End DriverFacts.

(** ** Lookup after assignment in a dictionary *)

Module PyDictFacts.

Import PyDict.

Section Dict.
Context {V : Type}.

Lemma get_set_same (d : dict V) (k : string) (v : V) : get (set d k v) k = Some v.
Proof.
  induction d as [|[k' v'] d IH]; simpl.
  - rewrite String.eqb_refl. reflexivity.
  - destruct (String.eqb k' k) eqn:E; simpl; rewrite E; [reflexivity|exact IH].
Qed.

Lemma get_set_other (d : dict V) (k k' : string) (v : V) :
  k' <> k -> get (set d k v) k' = get d k'.
Proof.
  intros Hne. induction d as [|[k0 v0] d IH]; simpl.
  - apply String.eqb_neq in Hne. rewrite String.eqb_sym, Hne. reflexivity.
  - destruct (String.eqb k0 k) eqn:E; simpl.
    + apply String.eqb_eq in E. subst k0.
      apply String.eqb_neq in Hne. rewrite String.eqb_sym, Hne. reflexivity.
    + destruct (String.eqb k0 k'); [reflexivity|exact IH].
Qed.

(** A comprehension [{key: v for key in ks}] on top of [d]. *)
Lemma get_update_const (v : V) (ks : list string) (d : dict V) (k : string) :
  get (update d (map (fun key => (key, v)) ks)) k
  = if existsb (String.eqb k) ks then Some v else get d k.
Proof.
  revert d. induction ks as [|x ks IH]; intros d; simpl; [reflexivity|].
  unfold update in *. simpl. rewrite IH.
  destruct (existsb (String.eqb k) ks); simpl; [rewrite orb_true_r; reflexivity|].
  rewrite orb_false_r. destruct (String.eqb k x) eqn:E.
  - apply String.eqb_eq in E. subst x. apply get_set_same.
  - apply get_set_other. apply String.eqb_neq. exact E.
Qed.

End Dict.

End PyDictFacts.

(** ** The module path of cell 3 *)

Module SetupFacts.

Import PyDict Setup PyDictFacts.
Local Open Scope string_scope.

Lemma ends_with_sep_app (a b : string) :
  b <> "" -> ends_with_sep (a ++ b) = ends_with_sep b.
Proof.
  intros Hb. induction a as [|c a IH]; [reflexivity|].
  simpl. rewrite IH. destruct (a ++ b) eqn:E; [|reflexivity].
  destruct a; simpl in E; [contradiction|discriminate].
Qed.

(** Joining a relative name that does not end in a separator gives a
    path that is not empty and does not end in one. *)
Lemma path_join_relative (a b : string) :
  starts_with_sep b = false -> b <> "" -> ends_with_sep b = false ->
  path_join a b <> "" /\ ends_with_sep (path_join a b) = false.
Proof.
  intros Hs Hb He. unfold path_join. rewrite Hs.
  destruct (String.eqb a "" || ends_with_sep a).
  - split.
    + destruct a; simpl; [exact Hb|discriminate].
    + rewrite ends_with_sep_app; assumption.
  - split.
    + destruct a; simpl; discriminate.
    + rewrite ends_with_sep_app.
      * change ("/" ++ b) with (String "/"%char b).
        simpl. destruct b; [contradiction|exact He].
      * discriminate.
Qed.

(** X10.  Whatever the home directory and whatever the environment held,
    the cell leaves [OFT_ROOTPATH] set to the install directory under the
    home directory (a value set before is overwritten), leaves every other
    variable as it was, and appends exactly one entry to [sys.path]: that
    directory followed by ["/python"].  The branch for an unset variable is
    never taken. *)
Theorem setup_path_spec (home_dir : string) (p : process) :
  let root := path_join home_dir "OpenFUSIONToolkit/install_release" in
  get (environ (setup_path home_dir p)) "OFT_ROOTPATH" = Some root
  /\ (forall k, k <> "OFT_ROOTPATH" ->
                get (environ (setup_path home_dir p)) k = get (environ p) k)
  /\ sys_path (setup_path home_dir p) = (sys_path p ++ [(root ++ "/python")%string])%list.
Proof.
  intros root. unfold setup_path. fold root.
  rewrite get_set_same. simpl.
  split; [apply get_set_same|].
  split; [intros k Hk; apply get_set_other; exact Hk|].
  destruct (path_join_relative home_dir "OpenFUSIONToolkit/install_release")
    as [Hne Hend]; try reflexivity; try discriminate.
  fold root in Hne, Hend.
  unfold path_join at 1. simpl starts_with_sep. cbv iota.
  rewrite Hend, orb_false_r.
  destruct (String.eqb root "") eqn:E; [|reflexivity].
  apply String.eqb_eq in E. contradiction.
Qed.

Example setup_path_example :
  setup_path "/home/user/"
             {| environ := [("OFT_ROOTPATH", "/Applications/OFT"); ("HOME", "/home/user/")];
                sys_path := ["/usr/lib/python3"] |}
  = {| environ := [("OFT_ROOTPATH", "/home/user/OpenFUSIONToolkit/install_release");
                   ("HOME", "/home/user/")];
       sys_path := ["/usr/lib/python3";
                    "/home/user/OpenFUSIONToolkit/install_release/python"] |}.
Proof. reflexivity. Qed.

End SetupFacts.

(** ** The coil bounds of cell 9 *)

Module BoundsFacts.

Import PyDict Bounds PyDictFacts.
Local Open Scope float_scope.

(** X11.  Every coil of the machine has the bounds [[-1000, 1000]], and a
    name that is not a coil has none (a lookup raises [KeyError]). *)
Theorem coil_bounds_lookup (coil_sets : list string) (k : string) :
  (In k coil_sets -> get (coil_bounds coil_sets) k = Some [-1e3; 1e3])
  /\ (~ In k coil_sets -> get (coil_bounds coil_sets) k = None).
Proof.
  unfold coil_bounds, of_items. rewrite get_update_const. simpl.
  destruct (existsb (String.eqb k) coil_sets) eqn:E.
  - split; [reflexivity|]. intros Hn. exfalso. apply Hn.
    apply existsb_exists in E. destruct E as (x & Hx & Heq).
    apply String.eqb_eq in Heq. subst x. exact Hx.
  - split; [|reflexivity]. intros Hin.
    assert (existsb (String.eqb k) coil_sets = true).
    { apply existsb_exists. exists k. split; [exact Hin|apply String.eqb_refl]. }
    congruence.
Qed.

End BoundsFacts.

(** ** The isoflux targets of cells 17, 19 and 25 *)

Module ShapeFacts.

Import Shape.
Local Open Scope float_scope.

Lemma outboard_In (created : points) (p : float * float) :
  In p (outboard created) <-> In p created /\ (0.3 <? fst p) = true.
Proof. unfold outboard. apply filter_In. Qed.

Lemma inboard_of_outboard (created : points) :
  filter (fun p => negb (0.3 <? fst p)) (outboard created) = [].
Proof.
  unfold outboard. induction created as [|p l IH]; simpl; [reflexivity|].
  destruct (0.3 <? fst p) eqn:E; simpl; [rewrite E; simpl|]; exact IH.
Qed.

(** X9.  Whatever [create_isoflux] returned, the isoflux set of the scan is
    its outboard rows ([R > 0.3]) in their order, followed by the inboard
    point and the two X-points.  It is therefore never empty; its only
    rows that are not outboard of [R = 0.3] are those three; both saddle
    points are isoflux targets too; and it is the set of cell 17 with the
    upper X-point added. *)
Theorem isoflux_scan_spec (created : points) :
  length (isoflux_scan created) = (length (outboard created) + 3)%nat
  /\ (length (outboard created) <= length created)%nat
  /\ (forall p, In p (isoflux_scan created) ->
                (In p created /\ (0.3 <? fst p) = true)
                \/ p = (0.15, 0.0) \/ In p x_points)
  /\ filter (fun p => negb (0.3 <? fst p)) (isoflux_scan created)
     = [(0.15, 0.0); (0.22, -0.33); (0.20, 0.34)]
  /\ (forall p, In p x_points -> In p (isoflux_scan created))
  /\ isoflux_scan created = isoflux_first created ++ [(0.20, 0.34)].
Proof.
  unfold isoflux_scan, isoflux_first, isoflux_pts, vstack.
  repeat split.
  - rewrite !length_app. simpl. lia.
  - unfold outboard. apply filter_length_le.
  - intros p Hp. apply in_app_or in Hp. destruct Hp as [Hp|Hp].
    + apply in_app_or in Hp. destruct Hp as [Hp|[<-|[]]].
      * left. apply outboard_In. exact Hp.
      * right. left. reflexivity.
    + right. right. exact Hp.
  - rewrite !filter_app, inboard_of_outboard. reflexivity.
  - intros p Hp. apply in_or_app. right. exact Hp.
  - rewrite <- !app_assoc. reflexivity.
Qed.

(** The trimming on a ring of five points, one of them without a radius. *)
Example isoflux_scan_example :
  isoflux_scan [(0.49, 0.0); (0.32, 0.29); (0.15, 0.0); (nan, 0.1); (0.32, -0.29)]
  = [(0.49, 0.0); (0.32, 0.29); (0.32, -0.29);
     (0.15, 0.0); (0.22, -0.33); (0.20, 0.34)].
Proof. reflexivity. Qed.

End ShapeFacts.

(** ** More binary64 facts: quotients and differences *)

Module F64Div.

Import Binary64.
Local Open Scope float_scope.

Lemma SFdiv_core_binary_nonneg (m1 m2 : positive) (e1 e2 : Z) :
  (0 <= fst (fst (SFdiv_core_binary prec emax (Zpos m1) e1 (Zpos m2) e2)))%Z.
Proof.
  unfold SFdiv_core_binary.
  set (s := (e1 - e2 - _)%Z).
  set (m' := match s with Zpos _ => Z.shiftl (Zpos m1) s | Z0 => Zpos m1 | Zneg _ => 0%Z end).
  assert (Hm : (0 <= m')%Z).
  { subst m'. destruct s; try lia. apply Z.shiftl_nonneg. lia. }
  pose proof (Z.div_pos m' (Zpos m2) Hm ltac:(lia)) as Hq.
  unfold Z.div in Hq.
  destruct (Z.div_eucl m' (Zpos m2)) as [q r]. exact Hq.
Qed.

(** A positive number divided by a magnitude is at least zero. *)
Lemma SFdiv_pos_abs_nonneg (m : positive) (e : Z) (y : spec_float) :
  SFis_nan y = false ->
  SFnonneg (SFdiv prec emax (S754_finite false m e) (SFabs y)) = true.
Proof.
  destruct y as [s|s| |s my ey]; simpl; try discriminate; try reflexivity.
  intros _.
  pose proof (SFdiv_core_binary_nonneg m my e ey) as H.
  destruct (SFdiv_core_binary prec emax (Zpos m) e (Zpos my) ey) as [[mz ez] lz].
  simpl in H. apply F64.binary_round_aux_nonneg. exact H.
Qed.

Lemma Prim2SF_fifth : exists m e, Prim2SF 0.2 = S754_finite false m e.
Proof. do 2 eexists. vm_compute. reflexivity. Qed.

(** The difference of a finite number and itself is the zero [+0]. *)
Lemma sub_diag (x : float) : is_finite x = true -> x - x = 0.
Proof.
  rewrite F64.is_finite_spec. intros H. apply Prim2SF_inj.
  rewrite sub_spec, F64.Prim2SF_zero.
  destruct (Prim2SF x) as [s|s| |s m e]; try discriminate.
  - destruct s; reflexivity.
  - unfold SF64sub, SFsub. rewrite Z.sub_diag. reflexivity.
Qed.

End F64Div.

(** ** The time step and the time loop of cell 25 *)

Module TimeLoopFacts.

Import NumPy TimeLoop Binary64.
Local Open Scope float_scope.

(** X3.  The time step [0.2/abs(growth)] never compares below zero and
    does not depend on the sign of the growth rate; it is a NaN exactly
    when the growth rate is one; and nothing guards the division: a zero
    growth rate gives an infinite time step, an infinite one the step [0]. *)
Theorem time_step_spec (growth : float) :
  (time_step growth <? 0) = false
  /\ time_step (- growth) = time_step growth
  /\ is_nan (time_step growth) = is_nan growth
  /\ ((growth =? 0) = true -> time_step growth = infinity)
  /\ (is_infinity growth = true -> time_step growth = 0).
Proof.
  unfold time_step. destruct F64Div.Prim2SF_fifth as (m & e & E).
  pose proof (F64Div.SFdiv_pos_abs_nonneg m e (Prim2SF growth)) as Hnn.
  repeat split.
  - rewrite ltb_spec, div_spec, abs_spec, E, F64.Prim2SF_zero.
    destruct (SFis_nan (Prim2SF growth)) eqn:Hnan.
    + destruct (Prim2SF growth); try discriminate. reflexivity.
    + apply F64.SFnonneg_not_ltb, Hnn. reflexivity.
  - rewrite F64.abs_opp. reflexivity.
  - rewrite !F64.is_nan_spec, div_spec, abs_spec, E.
    destruct (SFis_nan (Prim2SF growth)) eqn:Hnan.
    + destruct (Prim2SF growth); try discriminate. reflexivity.
    + specialize (Hnn eq_refl). unfold SF64div.
      destruct (SFdiv prec emax (S754_finite false m e) (SFabs (Prim2SF growth)));
        try reflexivity. discriminate.
  - rewrite F64.eqb_zero_spec. intros Hz. apply Prim2SF_inj.
    rewrite div_spec, abs_spec, E.
    destruct (Prim2SF growth); try discriminate. reflexivity.
  - unfold is_infinity. rewrite eqb_spec, abs_spec. intros Hinf.
    apply Prim2SF_inj. rewrite div_spec, abs_spec, E.
    destruct (Prim2SF growth) as [s|s| |s mg eg]; try discriminate;
      try reflexivity.
Qed.

Example time_step_example :
  time_step (-1250) = 0.00016 /\ time_step 0 = infinity /\ time_step nan = nan.
Proof. vm_compute. repeat split; reflexivity. Qed.

Section Loop.
Variable engine : Type.
Variable step_td : engine -> float -> float -> option (engine * (float * float * Z * Z * Z)).
Variable o_point : engine -> float * float.
Variable get_psi : engine -> ndarray.

Lemma calls_length (n : nat) (g : engine) (t dt : float) :
  (length (calls engine step_td n g t dt) <= n)%nat.
Proof.
  revert g t. induction n as [|n IH]; intros g t; simpl; [lia|].
  destruct (step_td g t dt) as [[g' r]|]; simpl; [|lia].
  specialize (IH g' (fst (fst (fst (fst r))))). lia.
Qed.

(** A loop that completes made all its calls, each with [nretry >= 0], and
    appended one row and one field per call. *)
Lemma time_loop_completed (n i : nat) (g : engine) (t dt : float)
      (z0 : list (float * float)) (results : list ndarray)
      (g' : engine) (t' : float) (z0' : list (float * float)) (results' : list ndarray) :
  time_loop engine step_td o_point get_psi n i g t dt z0 results = Completed g' t' z0' results' ->
  length (calls engine step_td n g t dt) = n
  /\ Forall (fun c => (0 <= call_nretry c)%Z) (calls engine step_td n g t dt)
  /\ z0' = z0 ++ map (row_of engine o_point) (calls engine step_td n g t dt)
  /\ results' = results ++ map (psi_of engine get_psi) (calls engine step_td n g t dt).
Proof.
  revert i g t z0 results. induction n as [|n IH]; intros i g t z0 results; simpl.
  - intros H. injection H as _ _ <- <-. rewrite !app_nil_r. auto.
  - destruct (step_td g t dt) as [[g1 [[[[t1 e1] nl] lin] nretry]]|]; [|discriminate].
    destruct (0 <=? nretry)%Z eqn:Hn; [|discriminate].
    intros H. apply IH in H. simpl. destruct H as (Hlen & Hall & Hz & Hr).
    repeat split.
    + rewrite Hlen. reflexivity.
    + constructor; [|exact Hall]. unfold call_nretry. simpl. lia.
    + rewrite Hz, <- app_assoc. reflexivity.
    + rewrite Hr, <- app_assoc. reflexivity.
Qed.

(** Conversely a loop all of whose calls succeed with [nretry >= 0]
    completes. *)
Lemma time_loop_completes (n i : nat) (g : engine) (t dt : float)
      (z0 : list (float * float)) (results : list ndarray) :
  length (calls engine step_td n g t dt) = n ->
  Forall (fun c => (0 <= call_nretry c)%Z) (calls engine step_td n g t dt) ->
  exists g' t',
    time_loop engine step_td o_point get_psi n i g t dt z0 results
    = Completed g' t' (z0 ++ map (row_of engine o_point) (calls engine step_td n g t dt))
                (results ++ map (psi_of engine get_psi) (calls engine step_td n g t dt)).
Proof.
  revert i g t z0 results. induction n as [|n IH]; intros i g t z0 results; simpl.
  - intros _ _. exists g, t. rewrite !app_nil_r. reflexivity.
  - destruct (step_td g t dt) as [[g1 [[[[t1 e1] nl] lin] nretry]]|]; [|discriminate].
    simpl. intros Hlen Hall. inversion Hall as [|c l Hc Hl]; subst.
    unfold call_nretry in Hc. simpl in Hc.
    apply Z.leb_le in Hc. rewrite Hc.
    destruct (IH (S i) g1 t1 (z0 ++ [(t1, snd (o_point g1))]) (results ++ [get_psi g1]))
      as (g' & t' & E); [lia|exact Hl|].
    exists g', t'. rewrite E, <- !app_assoc. reflexivity.
Qed.

(** A failed assertion in the iteration [k]: the calls before it had
    [nretry >= 0], the call of the iteration [k] a negative one. *)
Lemma time_loop_assertion (n i k : nat) (g : engine) (t dt : float)
      (z0 : list (float * float)) (results : list ndarray) :
  time_loop engine step_td o_point get_psi n i g t dt z0 results = AssertionError k ->
  exists j c,
    k = (i + j)%nat /\ (j < n)%nat
    /\ nth_error (calls engine step_td n g t dt) j = Some c
    /\ (call_nretry c < 0)%Z
    /\ Forall (fun c' => (0 <= call_nretry c')%Z) (firstn j (calls engine step_td n g t dt)).
Proof.
  revert i g t z0 results. induction n as [|n IH]; intros i g t z0 results; simpl.
  - discriminate.
  - destruct (step_td g t dt) as [[g1 [[[[t1 e1] nl] lin] nretry]]|]; [|discriminate].
    destruct (0 <=? nretry)%Z eqn:Hn.
    + intros H. apply IH in H. destruct H as (j & c & Hk & Hj & Hc & Hneg & Hall).
      exists (S j), c. simpl. repeat split; try assumption; try lia.
      constructor; [|exact Hall]. unfold call_nretry. simpl. lia.
    + intros H. injection H as <-.
      exists 0%nat, (g1, (t1, e1, nl, lin, nretry)). simpl.
      repeat split; try lia; [|constructor].
      unfold call_nretry. simpl. lia.
Qed.

(** X4.  A run of the time loop completes exactly when all thirty calls of
    [step_td] return, each with [nretry >= 0], every call being fed the
    time the one before returned.  A completed run leaves in [z0] the
    starting row [[0.0, Z]] followed by one row per call, thirty-one rows,
    and in [results] one field per call, thirty fields. *)
Theorem nonlinear_run_completed (g : engine) (dt : float) :
  ((exists g' t' z0 results,
      nonlinear_run engine step_td o_point get_psi g dt = Completed g' t' z0 results)
   <-> (length (calls engine step_td 30 g 0 dt) = 30%nat
        /\ Forall (fun c => (0 <= call_nretry c)%Z) (calls engine step_td 30 g 0 dt)))
  /\ forall g' t' z0 results,
       nonlinear_run engine step_td o_point get_psi g dt = Completed g' t' z0 results ->
       z0 = (0, snd (o_point g)) :: map (row_of engine o_point) (calls engine step_td 30 g 0 dt)
       /\ results = map (psi_of engine get_psi) (calls engine step_td 30 g 0 dt)
       /\ length z0 = 31%nat /\ length results = 30%nat.
Proof.
  unfold nonlinear_run. split; [split|].
  - intros (g' & t' & z0 & results & H).
    apply time_loop_completed in H. tauto.
  - intros [Hlen Hall].
    destruct (time_loop_completes 30 0 g 0 dt [(0, snd (o_point g))] [] Hlen Hall)
      as (g' & t' & E).
    eauto.
  - intros g' t' z0 results H.
    apply time_loop_completed in H. destruct H as (Hlen & _ & -> & ->).
    repeat split.
    + rewrite length_app, length_map, Hlen. reflexivity.
    + rewrite length_app, length_map, Hlen. reflexivity.
Qed.

(** The history and the calls of a completed run. *)
Lemma nonlinear_run_steps (g : engine) (dt : float) (g' : engine) (t' : float)
      (z0 : list (float * float)) (results : list ndarray) :
  nonlinear_run engine step_td o_point get_psi g dt = Completed g' t' z0 results ->
  z0 = (0, snd (o_point g)) :: map (row_of engine o_point) (calls engine step_td 30 g 0 dt)
  /\ length (calls engine step_td 30 g 0 dt) = 30%nat.
Proof.
  unfold nonlinear_run. intros H. apply time_loop_completed in H.
  destruct H as (Hlen & _ & -> & _). split; [reflexivity|exact Hlen].
Qed.

(** X5.  The loop stops at the first call that returns a negative retry
    count: when a run ends in the assertion of the iteration [k], with
    [k < 30], the calls before had [nretry >= 0], the call of the iteration
    [k] had a negative one, and no later call was made. *)
Theorem nonlinear_run_assertion (g : engine) (dt : float) (k : nat) :
  nonlinear_run engine step_td o_point get_psi g dt = AssertionError k ->
  (k < 30)%nat
  /\ exists c, nth_error (calls engine step_td 30 g 0 dt) k = Some c
               /\ (call_nretry c < 0)%Z
               /\ Forall (fun c' => (0 <= call_nretry c')%Z)
                         (firstn k (calls engine step_td 30 g 0 dt)).
Proof.
  unfold nonlinear_run. intros H. apply time_loop_assertion in H.
  destruct H as (j & c & -> & Hj & Hc & Hneg & Hall). simpl. eauto.
Qed.

End Loop.

Lemma nonlinear_run_completed_witness :
  exists g' t' z0 results,
    nonlinear_run float toy_step toy_o_point toy_get_psi 0.001 0.5
    = Completed g' t' z0 results
    /\ length z0 = 31%nat /\ length results = 30%nat
    /\ nth_error z0 0 = Some (0, 0.001)
    /\ nth_error z0 30 = Some (15, g').
Proof.
  destruct (nonlinear_run float toy_step toy_o_point toy_get_psi 0.001 0.5)
    as [g' t' z0 results|k|k] eqn:E.
  - exists g', t', z0, results.
    destruct (nonlinear_run_completed float toy_step toy_o_point toy_get_psi 0.001 0.5)
      as [_ H].
    destruct (H g' t' z0 results E) as (Hz & Hr & Hlz & Hlr).
    split; [reflexivity|]. split; [exact Hlz|]. split; [exact Hlr|].
    vm_compute in E. injection E as <- <- <- <-. split; reflexivity.
  - vm_compute in E. discriminate.
  - vm_compute in E. discriminate.
Defined.

Lemma nonlinear_run_assertion_witness :
  nonlinear_run float faulty_step toy_o_point toy_get_psi 1 0.5 = AssertionError 3
  /\ (3 < 30)%nat
  /\ exists c, nth_error (calls float faulty_step 30 1 0 0.5) 3 = Some c
               /\ (call_nretry c < 0)%Z
               /\ Forall (fun c' => (0 <= call_nretry c')%Z)
                         (firstn 3 (calls float faulty_step 30 1 0 0.5)).
Proof.
  assert (E : nonlinear_run float faulty_step toy_o_point toy_get_psi 1 0.5
              = AssertionError 3) by (vm_compute; reflexivity).
  split; [exact E|].
  exact (nonlinear_run_assertion float faulty_step toy_o_point toy_get_psi 1 0.5 3 E).
Defined.

End TimeLoopFacts.

(** ** The relative history of cell 31 *)

Module HistoryFacts.

Import NumPy TimeLoop History.
Local Open Scope float_scope.

(** X6.  The shift of a history raises exactly on a history of fewer than
    two rows.  Otherwise it returns one row fewer; its first row is the
    second row of the history less its own time and less the position of
    the first row, so the plotted time starts at [0] whenever the time of
    the second row is finite; and no plotted displacement compares below
    zero. *)
Theorem z_hist_spec (z0 : list (float * float)) :
  (z_hist z0 = None <-> (length z0 < 2)%nat)
  /\ forall h, z_hist z0 = Some h ->
       length h = (length z0 - 1)%nat
       /\ (forall r0 r1, nth_error z0 0 = Some r0 -> nth_error z0 1 = Some r1 ->
             nth_error h 0 = Some (fst r1 - fst r1, snd r1 - snd r0)
             /\ (is_finite (fst r1) = true -> nth_error (time_ms h) 0 = Some 0))
       /\ Forall (fun y => (y <? 0) = false) (displacement h).
Proof.
  split.
  - destruct z0 as [|r0 [|r1 rest]]; simpl; split; intros H;
      try reflexivity; try discriminate; lia.
  - intros h H. destruct z0 as [|r0 [|r1 rest]]; try discriminate.
    injection H as <-. repeat split.
    + simpl. rewrite length_map. lia.
    + simpl in *. congruence.
    + intros Hfin. simpl in *. injection H as <-. injection H0 as <-.
      rewrite (F64Div.sub_diag _ Hfin). reflexivity.
    + unfold displacement. apply Forall_forall. intros y Hy.
      apply in_map_iff in Hy. destruct Hy as (r & <- & _).
      rewrite ltb_spec, abs_spec, F64.Prim2SF_zero. unfold SFltb.
      destruct (Prim2SF (snd r)) as [s|s| |s m e]; reflexivity.
Qed.

Section Composed.
Variable engine : Type.
Variable step_td : engine -> float -> float -> option (engine * (float * float * Z * Z * Z)).
Variable o_point : engine -> float * float.
Variable get_psi : engine -> ndarray.

(** X7.  The history of every completed run can be shifted: the result has
    thirty rows, one per time step, and its first row holds the
    displacement after the first step relative to the starting position. *)
Theorem z_hist_of_completed_run (g g' : engine) (dt t' : float)
        (z0 : list (float * float)) (results : list ndarray) :
  nonlinear_run engine step_td o_point get_psi g dt = Completed g' t' z0 results ->
  exists h c rest,
    z_hist z0 = Some h /\ length h = 30%nat
    /\ calls engine step_td 30 g 0 dt = c :: rest
    /\ nth_error h 0
       = Some (call_time c - call_time c, snd (o_point (fst c)) - snd (o_point g)).
Proof.
  intros H.
  destruct (TimeLoopFacts.nonlinear_run_steps engine step_td o_point get_psi g dt
              g' t' z0 results H) as (Hz & Hlen).
  destruct (calls engine step_td 30 g 0 dt) as [|c rest] eqn:E; [discriminate|].
  subst z0. exists (map (fun r => (fst r - call_time c, snd r - snd (o_point g)))
                        (map (row_of engine o_point) (c :: rest))), c, rest.
  repeat split.
  - rewrite !length_map. exact Hlen.
Qed.

End Composed.

Lemma z_hist_spec_witness :
  z_hist [(0, 0.001); (0.5, 0.002); (1, 0.004)] = Some [(0, 0.001); (0.5, 0.003)]
  /\ length [(0, 0.001); (0.5, 0.003)] = 2%nat
  /\ nth_error (time_ms [(0, 0.001); (0.5, 0.003)]) 0 = Some 0.
Proof.
  assert (E : z_hist [(0, 0.001); (0.5, 0.002); (1, 0.004)] = Some [(0, 0.001); (0.5, 0.003)])
    by (vm_compute; reflexivity).
  destruct (z_hist_spec [(0, 0.001); (0.5, 0.002); (1, 0.004)]) as [_ H].
  destruct (H _ E) as (Hlen & Hrow & _).
  split; [exact E|]. split; [exact Hlen|].
  apply (Hrow (0, 0.001) (0.5, 0.002)); reflexivity.
Defined.

Lemma z_hist_of_completed_run_witness :
  exists g' t' z0 results h,
    nonlinear_run float toy_step toy_o_point toy_get_psi 0.001 0.5
    = Completed g' t' z0 results
    /\ z_hist z0 = Some h /\ length h = 30%nat.
Proof.
  destruct (nonlinear_run float toy_step toy_o_point toy_get_psi 0.001 0.5)
    as [g' t' z0 results|k|k] eqn:E.
  - destruct (z_hist_of_completed_run float toy_step toy_o_point toy_get_psi
                0.001 g' 0.5 t' z0 results E) as (h & c & rest & Hh & Hlen & _).
    exists g', t', z0, results, h. auto.
  - vm_compute in E. discriminate.
  - vm_compute in E. discriminate.
Defined.

End HistoryFacts.

(** ** When the linear stage of cell 25 raises, and what a zero divisor does *)

Module LinearStageFacts.

Import NumPy Driver NumPyFacts DriverFacts.
Local Open Scope float_scope.

Lemma select_some_length (a : ndarray) (mask : list bool) (w : ndarray) :
  select a mask = Some w -> length a = length mask.
Proof.
  revert mask w. induction a as [|x a IH]; intros [|b mask] w H; simpl in H;
    try discriminate; [reflexivity|].
  destruct (select a mask) as [r|] eqn:E; [|discriminate].
  simpl. f_equal. exact (IH mask r E).
Qed.

Lemma broadcast_length (f : float -> float -> float) (a b l : ndarray) :
  length a = length b -> broadcast f a b = Some l -> length l = length a.
Proof.
  intros Hlen H. unfold broadcast in H.
  assert (Hz : forall a b : ndarray, length a = length b ->
                                     length (zip_with f a b) = length a).
  { clear. induction a as [|x a IH]; intros [|y b] H; simpl in *;
      try discriminate; [reflexivity|]. f_equal. apply IH. lia. }
  destruct a as [|x [|x' a]].
  - destruct b as [|z b]; [|discriminate]. simpl in H. injection H as <-. reflexivity.
  - injection H as <-. rewrite length_map. symmetry. exact Hlen.
  - destruct b as [|z [|z' b]]; try discriminate.
    rewrite Hlen, Nat.eqb_refl in H. injection H as <-.
    exact (Hz (x :: x' :: a) (z :: z' :: b) Hlen).
Qed.

(** X1.  [eig_sign] raises exactly when the eigenvector and the node table
    differ in length ([IndexError]) or no mesh node lies above the midplane
    ([argmax] of an empty array, [ValueError]); a NaN coordinate does not
    count as above. *)
Theorem eig_sign_raises_iff (vec0 rz : ndarray) :
  eig_sign vec0 rz = None
  <-> length vec0 <> length rz \/ Forall (fun z => (0 <? z) = false) rz.
Proof.
  split.
  - intros H. destruct (Nat.eq_dec (length vec0) (length rz)) as [Hlen|Hlen];
      [right|left; exact Hlen].
    apply Forall_forall. intros z Hz.
    destruct (0 <? z) eqn:Hpos; [|reflexivity].
    apply In_nth_error in Hz. destruct Hz as [j Hj].
    assert (Hlt : (j < length vec0)%nat).
    { rewrite Hlen. apply nth_error_Some. congruence. }
    apply nth_error_Some in Hlt.
    destruct (nth_error vec0 j) as [x|] eqn:Hx; [|congruence].
    assert (Hm : nth_error (gt_scalar rz 0) j = Some true)
      by (apply upper_node; eauto).
    destruct (eig_sign_defined vec0 rz j x Hlen Hx Hm) as [s Hs]. congruence.
  - intros [Hlen|Hall].
    + unfold eig_sign, upper_values.
      destruct (select vec0 (gt_scalar rz 0)) as [w|] eqn:E; [|reflexivity].
      apply select_some_length in E. unfold gt_scalar in E.
      rewrite length_map in E. contradiction.
    + destruct (eig_sign vec0 rz) as [s|] eqn:Hs; [|reflexivity].
      destruct (eig_sign_at_node _ _ _ Hs) as (j & _ & _ & Hm).
      apply upper_node in Hm. destruct Hm as (z & Hz & Hpos).
      rewrite Forall_forall in Hall.
      rewrite (Hall z (nth_error_In _ _ Hz)) in Hpos. discriminate.
Qed.

(** X2.  Nothing guards the division in [psi_ic]: when [eig_sign] is a
    zero, [psi_ic] is computed without an error, has as many entries as
    [psi0], and every entry is an infinity or a NaN. *)
Theorem psi_ic_division_by_zero (psi0 vec0 rz : ndarray) (psi_bounds : float * float)
        (s : float) :
  length psi0 = length vec0 ->
  eig_sign vec0 rz = Some s -> (s =? 0) = true ->
  exists l, psi_ic psi0 vec0 rz psi_bounds = Some l
            /\ length l = length psi0
            /\ forall y, In y l -> is_finite y = false.
Proof.
  intros Hlen Hs Hz.
  destruct (psi_ic_defined psi0 vec0 rz psi_bounds s Hlen Hs) as [l Hl].
  exists l. split; [exact Hl|]. split.
  - unfold psi_ic, subtract in Hl. rewrite Hs in Hl.
    apply (broadcast_length _ _ _ _) in Hl; [exact Hl|].
    unfold perturbation, div_scalar, mul_scalar, scalar_mul.
    rewrite !length_map. exact Hlen.
  - exact (psi_ic_zero_divisor psi0 vec0 rz psi_bounds s l Hs Hz Hl).
Qed.

Lemma psi_ic_division_by_zero_witness :
  length [1; 2; 3] = length [0; 0; 3]
  /\ eig_sign [0; 0; 3] [1; 1; -1] = Some 0
  /\ exists l, psi_ic [1; 2; 3] [0; 0; 3] [1; 1; -1] (-0.5, 0.25) = Some l
               /\ length l = length [1; 2; 3]
               /\ forall y, In y l -> is_finite y = false.
Proof.
  split; [reflexivity|]. split; [vm_compute; reflexivity|].
  apply (psi_ic_division_by_zero [1; 2; 3] [0; 0; 3] [1; 1; -1] (-0.5, 0.25) 0).
  - reflexivity.
  - vm_compute. reflexivity.
  - reflexivity.
Defined.

End LinearStageFacts.

(** ** The regularisation terms of cell 11 *)

Module RegularizationFacts.

Import PyDict Regularization Currents.
Local Open Scope float_scope.

(** *** The numbers cell 11 passes, as rationals *)

Lemma Q_of_float_one : exists q, Q_of_float 1 = Some q /\ (q == 1)%Q.
Proof. eexists. split; [vm_compute; reflexivity|]. vm_compute. reflexivity. Qed.

Lemma Q_of_float_minus_one : exists q, Q_of_float (-1) = Some q /\ (q == -1)%Q.
Proof. eexists. split; [vm_compute; reflexivity|]. vm_compute. reflexivity. Qed.

(** *** The dictionaries cell 11 passes *)

Lemma get_In {V : Type} (d : dict V) (k : string) (v : V) :
  get d k = Some v -> In (k, v) d.
Proof.
  induction d as [|[k' v'] d IH]; simpl; [discriminate|].
  destruct (String.eqb k' k) eqn:E.
  - apply String.eqb_eq in E. subst k'. intros H. injection H as <-. auto.
  - auto.
Qed.

(** No coil of [coil_mirrors] is its own mirror. *)
Lemma coil_mirrors_irreflexive (name mirror : string) :
  get coil_mirrors name = Some mirror -> name <> mirror.
Proof.
  intros H. apply get_In in H. vm_compute in H.
  repeat (destruct H as [H|H]; [injection H as <- <-; discriminate|]).
  destruct H.
Qed.

(** [{name: 1.0}] and [{name: 1.0, mirror: -1.0}] have no key but [name]
    and [mirror]. *)
Lemma single_items (x name mirror k : string) (c : float) :
  x = name \/ x = mirror ->
  In (k, c) (of_items [(x, 1)]) ->
  (k = name \/ k = mirror) /\ (c = 1 \/ c = -1).
Proof. intros Hx [H|[]]. injection H as <- <-. auto. Qed.

Lemma pair_items (name mirror k : string) (c : float) :
  In (k, c) (of_items [(name, 1); (mirror, -1)]) ->
  (k = name \/ k = mirror) /\ (c = 1 \/ c = -1).
Proof.
  unfold of_items, update. simpl.
  destruct (String.eqb name mirror) eqn:E; simpl.
  - intros [H|[]]. injection H as <- <-. auto.
  - intros [H|[H|[]]]; injection H as <- <-; auto.
Qed.

Lemma pair_items_distinct (name mirror : string) :
  name <> mirror ->
  of_items [(name, 1); (mirror, -1)] = [(name, 1); (mirror, -1)].
Proof.
  intros Hne. unfold of_items, update. simpl.
  apply String.eqb_neq in Hne. rewrite Hne. reflexivity.
Qed.

Lemma filter_nil_iff {A : Type} (f : A -> bool) (l : list A) :
  filter f l = [] <-> forall x, In x l -> f x = false.
Proof.
  induction l as [|a l IH]; simpl.
  - split; [intros _ ? []|reflexivity].
  - destruct (f a) eqn:E; split.
    + discriminate.
    + intros H. rewrite (H a (or_introl eq_refl)) in E. discriminate.
    + intros H x [<-|Hx]; [exact E|]. apply IH; assumption.
    + intros H. apply IH. intros x Hx. apply H. right. exact Hx.
Qed.

Section Loop.
Context {term : Type}.
Variable coil_reg_term : dict float -> float -> float -> option term.

(** *** One coil *)

(** The body of the loop adds to the list, at its end: two terms when it
    goes on and the coil is a key of the mirror table, none when it goes on
    and the coil is not, and fewer than two when a call raises. *)
Lemma terms_for_run (mirrors : dict string) (disabled : list string) (name : string)
      (ts : list term) :
  exists l,
    terms_of (terms_for coil_reg_term mirrors disabled name ts) = ts ++ l
    /\ Forall (built_for coil_reg_term mirrors disabled name) l
    /\ match terms_for coil_reg_term mirrors disabled name ts with
       | Continues _ => length l = if mem mirrors name then 2%nat else 0%nat
       | Raises _ => mem mirrors name = true /\ (length l < 2)%nat
       end.
Proof.
  unfold terms_for, mem.
  destruct (get mirrors name) as [mirror|] eqn:Hget.
  2:{ exists []. simpl. rewrite app_nil_r. repeat split. constructor. }
  assert (B1 : forall w t,
             coil_reg_term (of_items [(name, 1)]) 0 w = Some t ->
             (if existsb (String.eqb name) disabled then w = 1e5 else w = 1e-1 \/ w = 1) ->
             built_for coil_reg_term mirrors disabled name t).
  { intros w t Ht Hw. exists (of_items [(name, 1)]), 0, w, mirror.
    repeat (split; [assumption || reflexivity|]).
    intros k c. apply single_items. left. reflexivity. }
  destruct (existsb (String.eqb name) disabled) eqn:Hdis; unfold append_term.
  - destruct (coil_reg_term (of_items [(name, 1)]) 0 1e5) as [t1|] eqn:E1; simpl.
    2:{ exists []. rewrite app_nil_r. repeat split; [constructor|simpl; lia]. }
    destruct (coil_reg_term (of_items [(mirror, 1)]) 0 1e5) as [t2|] eqn:E2; simpl.
    + exists [t1; t2]. rewrite <- app_assoc. repeat split.
      constructor; [apply (B1 _ _ E1); reflexivity|].
      constructor; [|constructor].
      exists (of_items [(mirror, 1)]), 0, 1e5, mirror. rewrite Hdis.
      repeat (split; [assumption || reflexivity|]).
      intros k c. apply single_items. right. reflexivity.
    + exists [t1]. repeat split; [|simpl; lia].
      constructor; [apply (B1 _ _ E1); reflexivity|constructor].
  - destruct (coil_reg_term (of_items [(name, 1)]) 0 1e-1) as [t1|] eqn:E1; simpl.
    2:{ exists []. rewrite app_nil_r. repeat split; [constructor|simpl; lia]. }
    destruct (coil_reg_term (of_items [(name, 1); (mirror, -1)]) 0 1) as [t2|] eqn:E2; simpl.
    + exists [t1; t2]. rewrite <- app_assoc. repeat split.
      constructor; [apply (B1 _ _ E1); left; reflexivity|].
      constructor; [|constructor].
      exists (of_items [(name, 1); (mirror, -1)]), 0, 1, mirror. rewrite Hdis.
      repeat (split; [assumption || reflexivity || (right; reflexivity)|]).
      intros k c. apply pair_items.
    + exists [t1]. repeat split; [|simpl; lia].
      constructor; [apply (B1 _ _ E1); left; reflexivity|constructor].
Qed.

(** *** The loop *)

(** The loop adds to the list, at its end, terms built for coils of the
    machine: two for each coil that is a key of the mirror table when it
    runs to its end, fewer when a call raises. *)
Lemma regularization_loop_run (mirrors : dict string) (disabled coil_sets : list string)
      (ts : list term) :
  exists l,
    terms_of (regularization_loop coil_reg_term mirrors disabled coil_sets ts) = ts ++ l
    /\ Forall (fun t => exists name,
                   In name coil_sets /\ built_for coil_reg_term mirrors disabled name t) l
    /\ match regularization_loop coil_reg_term mirrors disabled coil_sets ts with
       | Continues _ => length l = (2 * length (filter (mem mirrors) coil_sets))%nat
       | Raises _ => (length l < 2 * length (filter (mem mirrors) coil_sets))%nat
       end.
Proof.
  revert ts. induction coil_sets as [|name rest IH]; intros ts; simpl.
  - exists []. rewrite app_nil_r. repeat split. constructor.
  - destruct (terms_for_run mirrors disabled name ts) as (l1 & E1 & B1 & C1).
    assert (B1' : Forall (fun t => exists n,
                              (name = n \/ In n rest)
                              /\ built_for coil_reg_term mirrors disabled n t) l1).
    { eapply Forall_impl; [|exact B1]. intros t Ht. exists name. auto. }
    destruct (terms_for coil_reg_term mirrors disabled name ts) as [ts1|ts1]; simpl in *.
    + subst ts1. destruct (IH (ts ++ l1)) as (l2 & E2 & B2 & C2).
      exists (l1 ++ l2). rewrite app_assoc. split; [exact E2|]. split.
      * apply Forall_app. split; [exact B1'|].
        eapply Forall_impl; [|exact B2]. intros t (n & Hn & Ht). exists n. auto.
      * rewrite length_app.
        destruct (regularization_loop coil_reg_term mirrors disabled rest (ts ++ l1));
          destruct (mem mirrors name); simpl; lia.
    + exists l1. split; [exact E1|]. split; [exact B1'|].
      destruct C1 as [-> C1]. simpl. lia.
Qed.

(** A constructor that accepts every coefficient on coils of the machine
    lets the loop run to its end on a machine that has the mirror of each
    of its coils. *)
Lemma regularization_loop_completes (mirrors : dict string) (disabled machine : list string)
      (coil_sets : list string) (ts : list term) :
  (forall coeffs target weight,
      (forall k c, In (k, c) coeffs -> In k machine) ->
      coil_reg_term coeffs target weight <> None) ->
  (forall name mirror, In name coil_sets -> get mirrors name = Some mirror -> In mirror machine) ->
  incl coil_sets machine ->
  exists ts', regularization_loop coil_reg_term mirrors disabled coil_sets ts = Continues ts'.
Proof.
  intros Hok. revert ts. induction coil_sets as [|name rest IH]; intros ts Hmir Hincl; simpl.
  - eexists. reflexivity.
  - assert (Hname : In name machine) by (apply Hincl; left; reflexivity).
    assert (Hbody : exists ts1, terms_for coil_reg_term mirrors disabled name ts = Continues ts1).
    { unfold terms_for. destruct (get mirrors name) as [mirror|] eqn:Hget.
      2:{ eexists. reflexivity. }
      assert (Hmirror : In mirror machine) by (apply (Hmir name); [left; reflexivity|exact Hget]).
      assert (Hkeys : forall k, k = name \/ k = mirror -> In k machine).
      { intros k [->| ->]; assumption. }
      assert (S1 : forall x w, x = name \/ x = mirror ->
                               coil_reg_term (of_items [(x, 1)]) 0 w <> None).
      { intros x w Hx. apply Hok. intros k c Hk. apply Hkeys.
        exact (proj1 (single_items x name mirror k c Hx Hk)). }
      assert (S2 : forall w, coil_reg_term (of_items [(name, 1); (mirror, -1)]) 0 w <> None).
      { intros w. apply Hok. intros k c Hk. apply Hkeys.
        exact (proj1 (pair_items name mirror k c Hk)). }
      destruct (existsb (String.eqb name) disabled); unfold append_term.
      - destruct (coil_reg_term (of_items [(name, 1)]) 0 1e5) eqn:E1;
          [|exfalso; apply (S1 name 1e5); auto]. simpl.
        destruct (coil_reg_term (of_items [(mirror, 1)]) 0 1e5) eqn:E2;
          [|exfalso; apply (S1 mirror 1e5); auto].
        eexists. reflexivity.
      - destruct (coil_reg_term (of_items [(name, 1)]) 0 1e-1) eqn:E1;
          [|exfalso; apply (S1 name 1e-1); auto]. simpl.
        destruct (coil_reg_term (of_items [(name, 1); (mirror, -1)]) 0 1) eqn:E2;
          [|exfalso; apply (S2 1); auto].
        eexists. reflexivity. }
    destruct Hbody as (ts1 & ->). simpl. apply IH.
    + intros n m Hn. apply Hmir. right. exact Hn.
    + intros x Hx. apply Hincl. right. exact Hx.
Qed.

(** When the loop runs to its end, the list holds the difference term of
    every coil of the machine that is a key of the mirror table and is not
    disabled. *)
Lemma regularization_loop_difference (mirrors : dict string) (disabled coil_sets : list string)
      (ts ts' : list term) (name mirror : string) :
  regularization_loop coil_reg_term mirrors disabled coil_sets ts = Continues ts' ->
  In name coil_sets ->
  get mirrors name = Some mirror ->
  existsb (String.eqb name) disabled = false ->
  exists t, In t ts'
            /\ coil_reg_term (of_items [(name, 1); (mirror, -1)]) 0 1 = Some t.
Proof.
  revert ts. induction coil_sets as [|c rest IH]; intros ts Hrun Hin Hget Hdis; [destruct Hin|].
  simpl in Hrun.
  destruct (terms_for coil_reg_term mirrors disabled c ts) as [ts1|ts1] eqn:Ebody;
    simpl in Hrun; [|discriminate].
  destruct Hin as [->|Hin]; [|exact (IH ts1 Hrun Hin Hget Hdis)].
  unfold terms_for in Ebody. rewrite Hget, Hdis in Ebody. unfold append_term in Ebody.
  destruct (coil_reg_term (of_items [(name, 1)]) 0 1e-1) as [t1|]; simpl in Ebody;
    [|discriminate].
  destruct (coil_reg_term (of_items [(name, 1); (mirror, -1)]) 0 1) as [t|] eqn:Et;
    [|discriminate].
  injection Ebody as <-. exists t. split; [|reflexivity].
  destruct (regularization_loop_run mirrors disabled rest ((ts ++ [t1]) ++ [t]))
    as (l & El & _).
  rewrite Hrun in El. simpl in El. rewrite El.
  apply in_or_app. left. apply in_or_app. right. left. reflexivity.
Qed.

(** X8.  When no call of the constructor raises, the loop leaves exactly
    two terms for each coil of the machine that is a key of [coil_mirrors]
    and none for any other coil, so that the list is empty exactly when no
    coil of the machine is such a key; when a call raises, the list is
    left with fewer terms.  With a constructor that accepts every
    coefficient on coils of the machine, the loop runs to its end on any
    machine that has the mirror of each of its coils. *)
Theorem regularization_terms_count (coil_sets : list string) :
  (forall ts,
      regularization_terms coil_reg_term coil_sets = Continues ts ->
      length ts = (2 * length (filter (mem coil_mirrors) coil_sets))%nat
      /\ (ts = [] <-> forall c, In c coil_sets -> mem coil_mirrors c = false))
  /\ (forall ts,
         regularization_terms coil_reg_term coil_sets = Raises ts ->
         (length ts < 2 * length (filter (mem coil_mirrors) coil_sets))%nat)
  /\ ((forall coeffs target weight,
          (forall k c, In (k, c) coeffs -> In k coil_sets) ->
          coil_reg_term coeffs target weight <> None) ->
      (forall name mirror,
          In name coil_sets -> get coil_mirrors name = Some mirror -> In mirror coil_sets) ->
      exists ts, regularization_terms coil_reg_term coil_sets = Continues ts).
Proof.
  unfold regularization_terms.
  destruct (regularization_loop_run coil_mirrors disable_list coil_sets [])
    as (l & El & _ & Cl).
  simpl in El. split; [|split].
  - intros ts Hrun. rewrite Hrun in El, Cl. simpl in El. subst l.
    split; [exact Cl|]. rewrite <- filter_nil_iff. split.
    + intros ->. simpl in Cl.
      destruct (filter (mem coil_mirrors) coil_sets); [reflexivity|simpl in Cl; lia].
    + intros H. rewrite H in Cl. simpl in Cl.
      destruct ts; [reflexivity|discriminate].
  - intros ts Hrun. rewrite Hrun in El, Cl. simpl in El. subst l. exact Cl.
  - intros Hok Hmir.
    apply (regularization_loop_completes coil_mirrors disable_list coil_sets coil_sets []);
      [exact Hok|exact Hmir|apply incl_refl].
Qed.

(** X12.  Every term in the list, whether the loop has run to its end or
    a call has raised, is the result of a call of the constructor with the
    target [0], a weight that is [1e5] when its coil is in [disable_list]
    and [0.1] or [1] otherwise, and coefficients [1] or [-1] on no coil but
    a coil of the machine that is a key of [coil_mirrors] and the mirror of
    that coil. *)
Theorem regularization_terms_invariant (coil_sets : list string) (t : term) :
  In t (terms_of (regularization_terms coil_reg_term coil_sets)) ->
  exists coeffs target weight,
    coil_reg_term coeffs target weight = Some t
    /\ target = 0
    /\ exists name mirror,
         In name coil_sets /\ get coil_mirrors name = Some mirror
         /\ (if existsb (String.eqb name) disable_list
             then weight = 1e5
             else weight = 1e-1 \/ weight = 1)
         /\ forall k c, In (k, c) coeffs ->
                        (k = name \/ k = mirror) /\ (c = 1 \/ c = -1).
Proof.
  unfold regularization_terms.
  destruct (regularization_loop_run coil_mirrors disable_list coil_sets [])
    as (l & El & Bl & _).
  rewrite El. simpl. intros Hin.
  rewrite Forall_forall in Bl.
  destruct (Bl t Hin) as (name & Hname & cf & tg & w & mirror & Hcall & Hget & Htg & Hw & Hk).
  exists cf, tg, w. split; [exact Hcall|]. split; [exact Htg|].
  exists name, mirror. split; [exact Hname|]. split; [exact Hget|].
  split; [exact Hw|exact Hk].
Qed.

(** X13.  When the loop runs to its end, then for every coil of the
    machine that is a key of [coil_mirrors] and is not disabled the list
    holds the term the constructor returned for the coefficient [1] on the
    coil and [-1] on its mirror, a different coil, with the target [0] and
    the weight [1]; as a linear combination of the coil currents these
    coefficients vanish exactly on the currents that are equal in the two
    coils. *)
Theorem difference_term (coil_sets : list string) (ts : list term) (name mirror : string) :
  regularization_terms coil_reg_term coil_sets = Continues ts ->
  In name coil_sets ->
  get coil_mirrors name = Some mirror ->
  existsb (String.eqb name) disable_list = false ->
  name <> mirror
  /\ (exists t,
         In t ts /\ coil_reg_term [(name, 1); (mirror, -1)] 0 1 = Some t)
  /\ exists cq,
       coeffs_Q [(name, 1); (mirror, -1)] = Some cq
       /\ forall d : currents, (dot cq d == 0 <-> d name == d mirror)%Q.
Proof.
  intros Hrun Hin Hget Hdis.
  pose proof (coil_mirrors_irreflexive name mirror Hget) as Hne.
  split; [exact Hne|]. split.
  - rewrite <- (pair_items_distinct name mirror Hne).
    exact (regularization_loop_difference coil_mirrors disable_list coil_sets [] ts
             name mirror Hrun Hin Hget Hdis).
  - destruct Q_of_float_one as (q1 & E1 & H1).
    destruct Q_of_float_minus_one as (qm & Em & Hm).
    exists [(name, q1); (mirror, qm)]. split.
    + simpl. rewrite E1, Em. reflexivity.
    + intros d. simpl. rewrite H1, Hm. split; intros H; lra.
Qed.

End Loop.

(** *** The loop on the stand-in constructor *)

Lemma checked_term_accepts (machine : list string) (cf : dict float) (tg w : float) :
  (forall k c, In (k, c) cf -> In k machine) ->
  checked_term machine cf tg w <> None.
Proof.
  intros H. unfold checked_term.
  replace (forallb _ cf) with true; [discriminate|].
  symmetry. apply forallb_forall. intros [k c] Hk. simpl.
  apply existsb_exists. exists k. split; [exact (H k c Hk)|apply String.eqb_refl].
Qed.

(** On the coils of the CUTE mesh the loop runs to its end and leaves 28
    terms. *)
Example regularization_terms_cute :
  exists ts, regularization_terms (checked_term cute_coils) cute_coils = Continues ts
             /\ length ts = 28%nat.
Proof. eexists. split; vm_compute; reflexivity. Qed.

(** On a machine with the coil [CS01] and without its mirror [CS02] the
    second call raises, and the list is left with the one term of the
    first. *)
Example regularization_terms_raises :
  regularization_terms (checked_term ["CS01"; "VS01"]%string) ["CS01"; "VS01"]%string
  = Raises [ {| coeffs := [("CS01"%string, 1)]; target := 0; weight := 1e-1 |} ].
Proof. vm_compute. reflexivity. Qed.

Lemma regularization_terms_count_witness :
  exists ts,
    regularization_terms (checked_term cute_coils) cute_coils = Continues ts
    /\ length ts = (2 * length (filter (mem coil_mirrors) cute_coils))%nat
    /\ (ts = [] <-> forall c, In c cute_coils -> mem coil_mirrors c = false).
Proof.
  pose proof (regularization_terms_count (checked_term cute_coils) cute_coils)
    as (Hdone & _ & Hcompletes).
  destruct Hcompletes as (ts & Hts).
  - intros cf tg w. apply checked_term_accepts.
  - intros name mirror _ Hget. apply get_In in Hget.
    vm_compute in Hget.
    repeat (destruct Hget as [Hget|Hget];
            [injection Hget as <- <-; vm_compute; tauto|]).
    destruct Hget.
  - exists ts. split; [exact Hts|]. exact (Hdone ts Hts).
Defined.

Lemma regularization_terms_invariant_witness :
  In {| coeffs := [("CS03"%string, 1); ("CS04"%string, -1)]; target := 0; weight := 1 |}
     (terms_of (regularization_terms (checked_term cute_coils) cute_coils))
  /\ exists cf tg w,
       checked_term cute_coils cf tg w
       = Some {| coeffs := [("CS03"%string, 1); ("CS04"%string, -1)];
                 target := 0; weight := 1 |}
       /\ tg = 0
       /\ exists name mirror,
            In name cute_coils /\ get coil_mirrors name = Some mirror
            /\ (if existsb (String.eqb name) disable_list
                then w = 1e5
                else w = 1e-1 \/ w = 1)
            /\ forall k c, In (k, c) cf ->
                           (k = name \/ k = mirror) /\ (c = 1 \/ c = -1).
Proof.
  assert (H : In {| coeffs := [("CS03"%string, 1); ("CS04"%string, -1)];
                    target := 0; weight := 1 |}
                 (terms_of (regularization_terms (checked_term cute_coils) cute_coils))).
  { vm_compute. do 3 right. left. reflexivity. }
  split; [exact H|].
  exact (regularization_terms_invariant (checked_term cute_coils) cute_coils _ H).
Defined.

Lemma difference_term_witness :
  exists ts,
    regularization_terms (checked_term cute_coils) cute_coils = Continues ts
    /\ In "PF05"%string cute_coils
    /\ get coil_mirrors "PF05" = Some "PF10"%string
    /\ "PF05"%string <> "PF10"%string
    /\ (exists t,
           In t ts
           /\ checked_term cute_coils [("PF05"%string, 1); ("PF10"%string, -1)] 0 1 = Some t)
    /\ exists cq,
         coeffs_Q [("PF05"%string, 1); ("PF10"%string, -1)] = Some cq
         /\ forall d : currents,
              (dot cq d == 0 <-> d "PF05"%string == d "PF10"%string)%Q.
Proof.
  assert (Hin : In "PF05"%string cute_coils).
  { vm_compute. do 18 right. left. reflexivity. }
  eexists. split; [vm_compute; reflexivity|].
  split; [exact Hin|]. split; [reflexivity|].
  apply (difference_term (checked_term cute_coils) cute_coils _ "PF05" "PF10");
    [vm_compute; reflexivity|exact Hin|reflexivity|reflexivity].
Defined.

End RegularizationFacts.

(** ** More binary64 facts: the strict order and NaN operands *)

Module F64Order.

Import Binary64.
Local Open Scope float_scope.

Lemma SFltb_of_not_leb (x y : spec_float) :
  SFis_nan x = false -> SFis_nan y = false -> SFleb x y = false -> SFltb y x = true.
Proof.
  unfold SFleb, SFltb, SFcompare.
  destruct x as [[]|[]| |[] m1 e1], y as [[]|[]| |[] m2 e2];
    try reflexivity; try discriminate; intros _ _;
    change (Pos.compare_cont Eq) with Pos.compare;
    rewrite (Z.compare_antisym e1 e2), (Pos.compare_antisym m1 m2);
    destruct (Z.compare e1 e2), (Pos.compare m1 m2); simpl;
    try reflexivity; try discriminate.
Qed.

Lemma SFleb_ltb_trans (x y z : spec_float) :
  SFleb x y = true -> SFltb y z = true -> SFltb x z = true.
Proof.
  unfold SFleb, SFltb, SFcompare.
  destruct x as [[]|[]| |[] m1 e1], y as [[]|[]| |[] m2 e2], z as [[]|[]| |[] m3 e3];
    try reflexivity; try discriminate;
    change (Pos.compare_cont Eq) with Pos.compare;
    destruct (Z.compare_spec e1 e2), (Z.compare_spec e2 e3), (Z.compare_spec e1 e3);
    try lia; try reflexivity; try discriminate; subst;
    destruct (Pos.compare_spec m1 m2), (Pos.compare_spec m2 m3), (Pos.compare_spec m1 m3);
    simpl; try lia; try reflexivity; try discriminate.
Qed.

Lemma ltb_of_not_leb (x y : float) :
  is_nan x = false -> is_nan y = false -> (x <=? y) = false -> (y <? x) = true.
Proof. rewrite !F64.is_nan_spec, leb_spec, ltb_spec. apply SFltb_of_not_leb. Qed.

Lemma leb_ltb_trans (x y z : float) :
  (x <=? y) = true -> (y <? z) = true -> (x <? z) = true.
Proof. rewrite leb_spec, !ltb_spec. apply SFleb_ltb_trans. Qed.

(** Only numbers compare. *)
Lemma leb_not_nan (x y : float) :
  (x <=? y) = true -> is_nan x = false /\ is_nan y = false.
Proof.
  rewrite leb_spec, !F64.is_nan_spec. unfold SFleb.
  destruct (Prim2SF x), (Prim2SF y); simpl; try discriminate; auto.
Qed.

(** A NaN operand makes a NaN result. *)
Lemma mul_nan_r (x s : float) : is_nan s = true -> is_nan (x * s) = true.
Proof.
  rewrite !F64.is_nan_spec, mul_spec.
  destruct (Prim2SF x), (Prim2SF s); simpl; try discriminate; reflexivity.
Qed.

Lemma div_nan_r (x s : float) : is_nan s = true -> is_nan (x / s) = true.
Proof.
  rewrite !F64.is_nan_spec, div_spec.
  destruct (Prim2SF x), (Prim2SF s); simpl; try discriminate; reflexivity.
Qed.

Lemma sub_nan_r (x y : float) : is_nan y = true -> is_nan (x - y) = true.
Proof.
  rewrite !F64.is_nan_spec, sub_spec.
  destruct (Prim2SF x), (Prim2SF y); simpl; try discriminate; reflexivity.
Qed.

End F64Order.

(** ** Which node [eig_sign] is read at, and what a NaN does to it *)

Module EigSignFacts.

Import NumPy Driver NumPyFacts DriverFacts.
Local Open Scope float_scope.

(** The scan of [argmax] keeps every entry before the running maximum
    strictly below it. *)
Lemma argmax_loop_first (l pre : ndarray) (mp : float) (max_ind : nat) :
  nth_error pre max_ind = Some mp ->
  is_nan mp = false ->
  (forall y, In y pre -> (y <=? mp) = true) ->
  (forall j y, (j < max_ind)%nat -> nth_error pre j = Some y -> (y <? mp) = true) ->
  forall m, nth_error (pre ++ l) (argmax_loop l (length pre) mp max_ind) = Some m ->
            is_nan m = false ->
            forall j y, (j < argmax_loop l (length pre) mp max_ind)%nat ->
                        nth_error (pre ++ l) j = Some y -> (y <? m) = true.
Proof.
  revert pre mp max_ind.
  induction l as [|x l IH]; intros pre mp max_ind Hmp Hnan Hle Hlt m Hm Hmn j y Hj Hy;
    simpl in *.
  - rewrite app_nil_r in *. rewrite Hmp in Hm. injection Hm as <-. eauto.
  - assert (Hlen : length (pre ++ [x]) = S (length pre))
      by (rewrite length_app; simpl; lia).
    assert (Happ : (pre ++ [x]) ++ l = pre ++ x :: l)
      by (rewrite <- app_assoc; reflexivity).
    assert (Hidx : (max_ind < length pre)%nat)
      by (apply nth_error_Some; congruence).
    destruct (x <=? mp) eqn:Hx; simpl in *.
    + apply (IH (pre ++ [x]) mp max_ind) with (m := m) (j := j);
        rewrite ?Hlen, ?Happ; auto.
      * rewrite nth_error_app1; assumption.
      * intros y' Hy'. apply in_app_or in Hy'. destruct Hy' as [Hy'|[<-|[]]]; auto.
      * intros j' y' Hj' Hy'. rewrite nth_error_app1 in Hy' by lia. eauto.
    + destruct (is_nan x) eqn:Hxn.
      * rewrite nth_error_app2, Nat.sub_diag in Hm by lia. simpl in Hm. congruence.
      * assert (Hgt : (mp <? x) = true) by (apply F64Order.ltb_of_not_leb; assumption).
        apply (IH (pre ++ [x]) x (length pre)) with (m := m) (j := j);
          rewrite ?Hlen, ?Happ; auto.
        -- rewrite nth_error_app2, Nat.sub_diag by lia. reflexivity.
        -- intros y' Hy'. apply in_app_or in Hy'. destruct Hy' as [Hy'|[<-|[]]].
           ++ apply F64.leb_trans with mp; [auto|].
              apply F64.leb_total; assumption.
           ++ apply F64.leb_refl, Hxn.
        -- intros j' y' Hj' Hy'. rewrite nth_error_app1 in Hy' by lia.
           apply F64Order.leb_ltb_trans with mp; [|exact Hgt].
           apply Hle. eapply nth_error_In. exact Hy'.
Qed.

(** [argmax] returns the first position of the maximum. *)
Lemma argmax_first (a : ndarray) (k : nat) (m : float) :
  argmax a = Some k -> nth_error a k = Some m -> is_nan m = false ->
  forall j y, (j < k)%nat -> nth_error a j = Some y -> (y <? m) = true.
Proof.
  destruct a as [|x l]; simpl; [discriminate|]. intros H. injection H as <-.
  destruct (is_nan x) eqn:Hx.
  - intros _ _ j y Hj. lia.
  - intros Hm Hmn j y Hj Hy.
    apply (argmax_loop_first l [x] x 0) with (m := m) (j := j); auto.
    + intros y' [<-|[]]. apply F64.leb_refl, Hx.
    + intros j' y' Hj'. lia.
Qed.

(** Selection by a mask keeps the order of the entries. *)
Lemma select_before (a : ndarray) (mask : list bool) (w : ndarray)
      (k j i : nat) (x : float) :
  select a mask = Some w -> mask_index mask k = Some j ->
  nth_error a i = Some x -> nth_error mask i = Some true -> (i < j)%nat ->
  exists k', (k' < k)%nat /\ nth_error w k' = Some x.
Proof.
  revert mask w k j i.
  induction a as [|x0 a IH]; intros [|b mask] w k j i Hs Hk Hx Hm Hij;
    simpl in Hs; try discriminate.
  destruct (select a mask) as [r|] eqn:E; [|discriminate].
  injection Hs as <-. destruct b; simpl in Hk.
  - destruct k as [|k1]; [injection Hk as <-; lia|].
    destruct (mask_index mask k1) as [j1|] eqn:Ek; [|discriminate].
    injection Hk as <-. destruct i as [|i1]; simpl in Hx, Hm.
    + injection Hx as ->. exists 0%nat. split; [lia|reflexivity].
    + destruct (IH mask r k1 j1 i1 E Ek Hx Hm ltac:(lia)) as (k' & Hk' & Hw).
      exists (S k'). split; [lia|exact Hw].
  - destruct (mask_index mask k) as [j1|] eqn:Ek; [|discriminate].
    injection Hk as <-. destruct i as [|i1]; simpl in Hx, Hm; [discriminate|].
    exact (IH mask r k j1 i1 E Ek Hx Hm ltac:(lia)).
Qed.

(** X14.  When several nodes above the midplane share the largest
    magnitude, [eig_sign] is read at the first of them: unless [eig_sign]
    is a NaN, the eigenvector is strictly smaller in magnitude at every
    node with [Z > 0] that comes before the node [eig_sign] is read at. *)
Theorem eig_sign_first_maximum (vec0 rz : ndarray) (s : float) :
  eig_sign vec0 rz = Some s -> is_nan s = false ->
  exists j, eig_node vec0 rz = Some j
            /\ nth_error vec0 j = Some s
            /\ forall i x z, (i < j)%nat ->
                 nth_error vec0 i = Some x -> nth_error rz i = Some z ->
                 (0 <? z) = true -> (abs x <? abs s) = true.
Proof.
  intros Hs Hnan.
  destruct (eig_sign_at_node _ _ _ Hs) as (j & Hj & Hv & _).
  exists j. split; [exact Hj|]. split; [exact Hv|].
  intros i x z Hij Hx Hz Hpos.
  assert (Hm : nth_error (gt_scalar rz 0) i = Some true)
    by (apply upper_node; eauto).
  unfold eig_sign in Hs. unfold eig_node in Hj.
  destruct (upper_values vec0 rz) as [w|] eqn:Ew; [|discriminate].
  destruct (argmax (absolute w)) as [k|] eqn:Ek; [|discriminate].
  destruct (select_before _ _ _ _ _ _ _ Ew Hj Hx Hm Hij) as (k' & Hk' & Hw).
  apply (argmax_first (absolute w) k (abs s) Ek) with (j := k').
  - unfold absolute. rewrite nth_error_map, Hs. reflexivity.
  - rewrite F64.is_nan_abs. exact Hnan.
  - exact Hk'.
  - unfold absolute. rewrite nth_error_map, Hw. reflexivity.
Qed.

(** X15.  [eig_sign] is a NaN exactly when the eigenvector is a NaN at some
    node with [Z > 0]; then every entry of the stored mode and every entry
    of [psi_ic] is a NaN. *)
Theorem eig_sign_nan_iff (psi0 vec0 rz : ndarray) (psi_bounds : float * float) (s : float) :
  eig_sign vec0 rz = Some s ->
  (is_nan s = true
   <-> exists j x z, nth_error vec0 j = Some x /\ nth_error rz j = Some z
                     /\ (0 <? z) = true /\ is_nan x = true)
  /\ (is_nan s = true ->
      (forall m, mode vec0 rz = Some m -> Forall (fun y => is_nan y = true) m)
      /\ (forall l, psi_ic psi0 vec0 rz psi_bounds = Some l ->
                    Forall (fun y => is_nan y = true) l)).
Proof.
  intros Hs. split; [split|].
  - intros Hnan. destruct (eig_sign_at_node _ _ _ Hs) as (j & _ & Hv & Hm).
    apply upper_node in Hm. destruct Hm as (z & Hz & Hpos).
    exists j, s, z. auto.
  - intros (j & x & z & Hx & Hz & Hpos & Hxn).
    destruct (is_nan s) eqn:Hnan; [reflexivity|].
    assert (Hm : nth_error (gt_scalar rz 0) j = Some true)
      by (apply upper_node; eauto).
    pose proof (eig_sign_max _ _ _ Hs Hnan j x Hx Hm) as Hle.
    apply F64Order.leb_not_nan in Hle. destruct Hle as [Hle _].
    rewrite F64.is_nan_abs in Hle. congruence.
  - intros Hnan. split.
    + intros m Hm. unfold mode in Hm. rewrite Hs in Hm. injection Hm as <-.
      apply Forall_forall. intros y Hy. unfold mul_scalar in Hy.
      apply in_map_iff in Hy. destruct Hy as (x & <- & _).
      apply F64Order.mul_nan_r, Hnan.
    + intros l Hl. unfold psi_ic, subtract in Hl. rewrite Hs in Hl.
      apply Forall_forall. intros y Hy.
      destruct (broadcast_In _ _ _ _ _ Hl Hy) as (p & q & _ & Hq & ->).
      apply F64Order.sub_nan_r.
      unfold perturbation, div_scalar in Hq. apply in_map_iff in Hq.
      destruct Hq as (t & <- & _). apply F64Order.div_nan_r, Hnan.
Qed.

Lemma eig_sign_first_maximum_witness :
  eig_sign [0.5; -2; 1.5; 2] [-1; 0.5; 1; 1] = Some (-2)
  /\ is_nan (-2) = false
  /\ exists j, eig_node [0.5; -2; 1.5; 2] [-1; 0.5; 1; 1] = Some j
               /\ nth_error [0.5; -2; 1.5; 2] j = Some (-2)
               /\ forall i x z, (i < j)%nat ->
                    nth_error [0.5; -2; 1.5; 2] i = Some x ->
                    nth_error [-1; 0.5; 1; 1] i = Some z ->
                    (0 <? z) = true -> (abs x <? abs (-2)) = true.
Proof.
  assert (Hs : eig_sign [0.5; -2; 1.5; 2] [-1; 0.5; 1; 1] = Some (-2))
    by (vm_compute; reflexivity).
  split; [exact Hs|]. split; [reflexivity|].
  exact (eig_sign_first_maximum _ _ _ Hs eq_refl).
Defined.

Lemma eig_sign_nan_iff_witness :
  eig_sign [0.5; nan; 1.5] [1; 1; 1] = Some nan
  /\ (forall m, mode [0.5; nan; 1.5] [1; 1; 1] = Some m ->
                Forall (fun y => is_nan y = true) m)
  /\ (forall l, psi_ic [1; 2; 3] [0.5; nan; 1.5] [1; 1; 1] (-0.5, 0.25) = Some l ->
                Forall (fun y => is_nan y = true) l).
Proof.
  assert (Hs : eig_sign [0.5; nan; 1.5] [1; 1; 1] = Some nan)
    by (vm_compute; reflexivity).
  split; [exact Hs|].
  destruct (eig_sign_nan_iff [1; 2; 3] _ _ (-0.5, 0.25) _ Hs) as [_ H].
  apply H. reflexivity.
Defined.

End EigSignFacts.
